(** * aoc_helper.utils: the [iter] sequence wrapper and its chunking helpers

    A shallow embedding of [src/aoc_helper/utils.py].  A Python iterator is a
    state together with its [__next__]; calling it either returns a value or
    raises, and leaves a new state behind.  The builtins the module calls
    ([iter], [next], [zip], [itertools.zip_longest], [itertools.accumulate],
    [functools.reduce], [reversed], [sorted], [min], [max], [list], [tuple],
    [itertools.tee]) are embedded next to the code that calls them, following
    the behaviour the Python documentation gives for them. *)

From Stdlib Require Import List ZArith Lia Bool Arith PeanoNat.
From Stdlib Require Import Sorted Permutation Ascii.
From Stdlib Require String.
Import String.StringSyntax.
Delimit Scope string_scope with string.
Import ListNotations.

Set Implicit Arguments.

(** ** Exceptions and outcomes *)

Inductive exn : Type :=
| StopIteration
| TypeError
| ValueError
| IndexError
| RuntimeError.

Inductive result (A : Type) : Type :=
| Ok (a : A)
| Raise (e : exn).

Arguments Ok {A} a.
Arguments Raise {A} e.

(** A computation that reads and updates a state [St] and returns or raises. *)
Definition M (St A : Type) : Type := St -> result A * St.

Definition ret {St A : Type} (a : A) : M St A := fun s => (Ok a, s).

Definition raise {St A : Type} (e : exn) : M St A := fun s => (Raise e, s).

Definition bind {St A B : Type} (m : M St A) (k : A -> M St B) : M St B :=
  fun s =>
    match m s with
    | (Ok a, s') => k a s'
    | (Raise e, s') => (Raise e, s')
    end.

Notation "x <- m ;; k" := (bind m (fun x => k))
  (at level 61, m at next level, right associativity).

(** An exception that leaves the body of a generator: since PEP 479 a
    [StopIteration] escaping a generator frame reaches the consumer as
    [RuntimeError]; every other exception passes unchanged.  (The module
    needs Python 3.9 or later: it subscripts the builtin [tuple] in the
    annotations of [chunk].) *)
Definition generator_exit (e : exn) : exn :=
  match e with
  | StopIteration => RuntimeError
  | _ => e
  end.

Definition in_generator {St A : Type} (m : M St A) : M St A :=
  fun s =>
    match m s with
    | (Ok a, s') => (Ok a, s')
    | (Raise e, s') => (Raise (generator_exit e), s')
    end.

(** [range(n)] has [n] elements and [[x] * n] has [n] items, none when
    [n <= 0]. *)
Definition times (n : Z) : nat := Z.to_nat n.

(** ** Iterators *)

Record iterator (T : Type) : Type := Iterator {
  ist : Type;
  inext : M ist T;
  icur : ist
}.

(** [list_iterator]: the iterator [builtins.iter] makes of a list; once
    exhausted it stays exhausted. *)
Definition list_next {T : Type} : M (list T) T :=
  fun l =>
    match l with
    | [] => (Raise StopIteration, [])
    | x :: r => (Ok x, r)
    end.

Definition list_iterator {T : Type} (l : list T) : iterator T :=
  Iterator list_next l.

(** Run a computation over the state of an iterator, in place. *)
Definition run {T A : Type} (i : iterator T) (m : M (ist i) A)
  : result A * iterator T :=
  match m (icur i) with
  | (r, s') => (r, Iterator (inext i) s')
  end.

Definition run_opt {T A : Type} (i : iterator T)
  (m : ist i -> option (result A * ist i)) : option (result A * iterator T) :=
  match m (icur i) with
  | Some (r, s') => Some (r, Iterator (inext i) s')
  | None => None
  end.

(** ** Loops over an iterator, written over its [__next__] *)

Section Loops.
Context {St T : Type}.
Variable nx : M St T.

(** [n] successive pulls, results in order; the first exception ends
    the loop. *)
Fixpoint next_n (n : nat) : M St (list T) :=
  match n with
  | O => ret []
  | S n' => x <- nx ;; xs <- next_n n' ;; ret (x :: xs)
  end.

(** [for _ in builtins.range(n): self.next()] *)
Fixpoint skip_loop (n : nat) : M St unit :=
  match n with
  | O => ret tt
  | S n' => _ <- nx ;; skip_loop n'
  end.

(** [tuple(self.next() for _ in builtins.range(n))]: the generator
    expression yields one [self.next()] per element of the range and
    [tuple] gathers what it yields; an exception of [self.next()] leaves
    the generator frame. *)
Fixpoint take_loop (n : nat) : M St (list T) :=
  match n with
  | O => ret []
  | S n' => x <- in_generator nx ;; xs <- take_loop n' ;; ret (x :: xs)
  end.

(** [for el in it: acc = body(acc, el)], with fuel: [None] when the fuel
    runs out before the iterator raises. *)
Fixpoint for_each {A : Type} (fuel : nat) (body : A -> T -> A) (acc : A)
  : St -> option (result A * St) :=
  fun s =>
    match fuel with
    | O => None
    | S fuel' =>
        match nx s with
        | (Ok el, s') => for_each fuel' body (body acc el) s'
        | (Raise StopIteration, s') => Some (Ok acc, s')
        | (Raise e, s') => Some (Raise e, s')
        end
    end.

(** [list(it)] *)
Definition list_loop (fuel : nat) : St -> option (result (list T) * St) :=
  for_each fuel (fun acc el => acc ++ [el]) [].

(** The shape [functools.reduce], [min] and [max] share: the first element
    seeds the result, an iterator that has none raises [empty], and the
    rest is folded in. *)
Definition fold_from_first (fuel : nat) (body : T -> T -> T) (empty : exn)
  : St -> option (result T * St) :=
  fun s =>
    match nx s with
    | (Ok first, s') => for_each fuel body first s'
    | (Raise StopIteration, s') => Some (Raise empty, s')
    | (Raise e, s') => Some (Raise e, s')
    end.

(** [functools.reduce(function, it[, initial])]: without [initial] an empty
    iterable is a [TypeError]. *)
Definition reduce_loop (fuel : nat) (function : T -> T -> T)
  (initial : option T) : St -> option (result T * St) :=
  match initial with
  | Some value => for_each fuel function value
  | None => fold_from_first fuel function TypeError
  end.

(** [zip] applied to [k] references to this one iterator: no
    iterator at all gives an empty [zip]; otherwise each row pulls [k]
    times in turn and the first [StopIteration] ends the [zip], the items
    of the unfinished row being lost. *)
Definition zip_next (k : nat) : M St (list T) :=
  match k with
  | O => raise StopIteration
  | S _ => next_n k
  end.

(** One row of [itertools.zip_longest] over slots that all refer to this one
    iterator.  A slot is [true] while its iterator is still active.  An
    active slot pulls; when the pull raises, [numactive] drops by one and,
    if no slot is active any more (or the exception is not
    [StopIteration]), the row is abandoned with [numactive = 0], after
    which the slots are never read again; otherwise the slot becomes
    inactive and holds [fillvalue]. *)
Fixpoint zip_longest_row (fillvalue : T) (slots : list bool) (numactive : nat)
  : St -> result (list T * list bool) * (nat * St) :=
  fun s =>
    match slots with
    | [] => (Ok ([], []), (numactive, s))
    | false :: rest =>
        match zip_longest_row fillvalue rest numactive s with
        | (Ok (items, rest'), ns) =>
            (Ok (fillvalue :: items, false :: rest'), ns)
        | (Raise e, ns) => (Raise e, ns)
        end
    | true :: rest =>
        match nx s with
        | (Ok item, s') =>
            match zip_longest_row fillvalue rest numactive s' with
            | (Ok (items, rest'), ns) =>
                (Ok (item :: items, true :: rest'), ns)
            | (Raise e, ns) => (Raise e, ns)
            end
        | (Raise StopIteration, s') =>
            match numactive - 1 with
            | O => (Raise StopIteration, (O, s'))
            | S m =>
                match zip_longest_row fillvalue rest (S m) s' with
                | (Ok (items, rest'), ns) =>
                    (Ok (fillvalue :: items, false :: rest'), ns)
                | (Raise e, ns) => (Raise e, ns)
                end
            end
        | (Raise e, s') => (Raise e, (O, s'))
        end
    end.

(** [zip_longest.__next__]: nothing for an empty argument list or once no
    slot is active. *)
Definition zip_longest_next (fillvalue : T)
  : M ((list bool * nat) * St) (list T) :=
  fun '((slots, numactive), s) =>
    match slots, numactive with
    | [], _ => (Raise StopIteration, ((slots, numactive), s))
    | _, O => (Raise StopIteration, ((slots, numactive), s))
    | _, _ =>
        match zip_longest_row fillvalue slots numactive s with
        | (Ok (items, slots'), (n', s')) => (Ok items, ((slots', n'), s'))
        | (Raise e, (n', s')) => (Raise e, ((slots, n'), s'))
        end
    end.

(** The generator [iter._window].  [WStart]: the body has not run yet;
    [WLoop elements]: suspended at a [yield] with the deque [elements];
    [WDone]: the generator has returned or raised. *)
Inductive window_gen : Type :=
| WStart
| WLoop (elements : list T)
| WDone.

Definition window_next (window_size : Z) : M (window_gen * St) (list T) :=
  fun '(g, s) =>
    match g with
    | WStart =>
        (* for _ in range(window_size): elements.append(self.next()),
           a StopIteration being caught to return *)
        match next_n (times window_size) s with
        | (Ok elements, s') => (Ok elements, (WLoop elements, s'))
        | (Raise StopIteration, s') => (Raise StopIteration, (WDone, s'))
        | (Raise e, s') => (Raise e, (WDone, s'))
        end
    | WLoop elements =>
        (* for el in self: elements.popleft(); elements.append(el); yield *)
        match nx s with
        | (Ok el, s') =>
            match elements with
            | [] => (Raise IndexError, (WDone, s'))
            | _ :: rest => (Ok (rest ++ [el]), (WLoop (rest ++ [el]), s'))
            end
        | (Raise StopIteration, s') => (Raise StopIteration, (WDone, s'))
        | (Raise e, s') => (Raise e, (WDone, s'))
        end
    | WDone => (Raise StopIteration, (WDone, s))
    end.

(** [itertools.tee]: every branch has a deque; a branch whose deque is empty
    pulls one value from the shared iterator and appends it to the deque of
    every branch, then pops the left end of its own.  The state is shared by
    all branches: the iterator state and the deques.  A branch is named by
    its index in the tuple [tee] returns; an index outside it is an
    [IndexError]. *)
Definition popleft (b : nat) (deques : list (list T))
  : option (T * list (list T)) :=
  match nth_error deques b with
  | Some (x :: d) => Some (x, firstn b deques ++ d :: skipn (S b) deques)
  | _ => None
  end.

Definition tee_next (b : nat) : M (St * list (list T)) T :=
  fun '(s, deques) =>
    match nth_error deques b with
    | None => (Raise IndexError, (s, deques))
    | Some (x :: d) =>
        (Ok x, (s, firstn b deques ++ d :: skipn (S b) deques))
    | Some [] =>
        match nx s with
        | (Ok newval, s') =>
            match popleft b (map (fun d => d ++ [newval]) deques) with
            | Some (x, deques') => (Ok x, (s', deques'))
            | None => (Raise IndexError, (s', deques))
            end
        | (Raise e, s') => (Raise e, (s', deques))
        end
    end.

(** Branches driven in the order [sched] says, one pull each; the trace
    records which branch pulled and what it got. *)
Fixpoint drive (sched : list nat)
  : St * list (list T) -> list (nat * result T) * (St * list (list T)) :=
  fun ws =>
    match sched with
    | [] => ([], ws)
    | b :: rest =>
        match tee_next b ws with
        | (r, ws1) =>
            match drive rest ws1 with
            | (trace, ws2) => ((b, r) :: trace, ws2)
            end
        end
    end.

End Loops.

(** The values branch [b] received in a trace, in order. *)
Fixpoint received {T : Type} (b : nat) (trace : list (nat * result T))
  : list T :=
  match trace with
  | [] => []
  | (b', Ok x) :: rest =>
      if Nat.eqb b b' then x :: received b rest else received b rest
  | (_, Raise _) :: rest => received b rest
  end.

Definition builtins_list {T : Type} (fuel : nat) (i : iterator T)
  : option (result (list T) * iterator T) :=
  run_opt i (list_loop (inext i) fuel).

(** ** More iterators the methods build *)

Section Adaptors.
Context {St T : Type}.
Variable nx : M St T.

(** [map.__next__] over one iterable: pull, then apply [func]. *)
Definition map_next {U : Type} (func : T -> U) : M St U :=
  el <- nx ;; ret (func el).

(** [filter.__next__]: pull until an element satisfies [pred]; an exception
    of a pull ends the search.  The search has no bound of its own, so it
    takes fuel: [None] when the fuel runs out first. *)
Fixpoint filter_next (fuel : nat) (pred : T -> bool)
  : St -> option (result T * St) :=
  fun s =>
    match fuel with
    | O => None
    | S fuel' =>
        match nx s with
        | (Ok el, s') =>
            if pred el then Some (Ok el, s') else filter_next fuel' pred s'
        | (Raise e, s') => Some (Raise e, s')
        end
    end.

(** [list] of a filter object: each pull is a search of its own. *)
Fixpoint filter_list (fuel : nat) (pred : T -> bool) (acc : list T)
  : St -> option (result (list T) * St) :=
  fun s =>
    match fuel with
    | O => None
    | S fuel' =>
        match filter_next fuel pred s with
        | Some (Ok el, s') => filter_list fuel' pred (acc ++ [el]) s'
        | Some (Raise StopIteration, s') => Some (Ok acc, s')
        | Some (Raise e, s') => Some (Raise e, s')
        | None => None
        end
    end.

End Adaptors.

(** [itertools.chain(first, other)]: the iterables are asked for their
    iterator one after the other, each only when the one before is
    exhausted.  [other] is either the exception [iter(other)] raises or the
    [__next__] of its iterator.  An iterable that cannot be iterated, and
    the end of the last one, both close the chain for good. *)
Inductive chain_pos : Type :=
| CFirst
| CSecond
| CDone.

Definition chain_second {St1 St2 T : Type} (nx2 : M St2 T)
  : M (chain_pos * (St1 * St2)) T :=
  fun '(_, (s1, s2)) =>
    match nx2 s2 with
    | (Ok x, s2') => (Ok x, (CSecond, (s1, s2')))
    | (Raise StopIteration, s2') => (Raise StopIteration, (CDone, (s1, s2')))
    | (Raise e, s2') => (Raise e, (CSecond, (s1, s2')))
    end.

Definition chain_next {St1 St2 T : Type} (nx1 : M St1 T)
  (other : exn + M St2 T) : M (chain_pos * (St1 * St2)) T :=
  fun '(pos, (s1, s2)) =>
    match pos with
    | CFirst =>
        match nx1 s1 with
        | (Ok x, s1') => (Ok x, (CFirst, (s1', s2)))
        | (Raise StopIteration, s1') =>
            match other with
            | inl e => (Raise e, (CDone, (s1', s2)))
            | inr nx2 => chain_second nx2 (CSecond, (s1', s2))
            end
        | (Raise e, s1') => (Raise e, (CFirst, (s1', s2)))
        end
    | CSecond =>
        match other with
        | inl _ => (Raise StopIteration, (CDone, (s1, s2)))
        | inr nx2 => chain_second nx2 (CSecond, (s1, s2))
        end
    | CDone => (Raise StopIteration, (CDone, (s1, s2)))
    end.

(** ** The class [iter] and the objects its methods receive *)

Record wrapper (T : Type) : Type := Wrap { it : iterator T }.

Inductive pyobj (T : Type) : Type :=
| PyList (l : list T)
| PyIterator (i : iterator T)
| PyWrapper (w : wrapper T)
| PyCallable (f : T -> T -> T)
| PyValue (x : T).

Arguments PyList {T} l.
Arguments PyIterator {T} i.
Arguments PyWrapper {T} w.
Arguments PyCallable {T} f.
Arguments PyValue {T} x.

(** [builtins.iter(o)]: a list gives a fresh list iterator, an iterator
    gives itself, an [iter] wrapper gives [self.it.__iter__()], which is
    [self.it]; functions and plain values are not iterable. *)
Definition builtins_iter {T : Type} (o : pyobj T) : result (iterator T) :=
  match o with
  | PyList l => Ok (list_iterator l)
  | PyIterator i => Ok i
  | PyWrapper w => Ok (it w)
  | PyCallable _ => Raise TypeError
  | PyValue _ => Raise TypeError
  end.

(** [builtins.reversed(o)] needs [__reversed__] or the sequence protocol
    ([__len__] and [__getitem__]).  A list has them.  Iterators, functions
    and plain values do not, and neither does class [iter], which defines
    [__iter__] as its only special method besides [__init__] and
    [__repr__]. *)
Definition builtins_reversed {T : Type} (o : pyobj T) : result (iterator T) :=
  match o with
  | PyList l => Ok (list_iterator (rev l))
  | PyIterator _ => Raise TypeError
  | PyWrapper _ => Raise TypeError
  | PyCallable _ => Raise TypeError
  | PyValue _ => Raise TypeError
  end.

(** Calling an object on two arguments. *)
Definition call2 {T : Type} (o : pyobj T) (a b : T) : result T :=
  match o with
  | PyCallable f => Ok (f a b)
  | _ => Raise TypeError
  end.

(** [accumulate.__next__], state [(total, initial)] beside the iterator's:
    a pending [initial] is yielded first; then each pulled value either
    becomes the total or is combined into it with [binop] ([operator_add]
    when [binop] is absent). *)
Definition accumulate_next {St T : Type} (operator_add : T -> T -> T)
  (nx : M St T) (binop : option (pyobj T))
  : M ((option T * option T) * St) T :=
  fun '((total, initial), s) =>
    match initial with
    | Some v => (Ok v, ((Some v, None), s))
    | None =>
        match nx s with
        | (Raise e, s') => (Raise e, ((total, None), s'))
        | (Ok val, s') =>
            match total with
            | None => (Ok val, ((Some val, None), s'))
            | Some t =>
                match
                  match binop with
                  | None => Ok (operator_add t val)
                  | Some f => call2 f t val
                  end
                with
                | Ok newtotal => (Ok newtotal, ((Some newtotal, None), s'))
                | Raise e => (Raise e, ((Some t, None), s'))
                end
            end
        end
    end.

(** [itertools.accumulate], whose parameters are [iterable], [func=None]
    and the keyword-only [initial=None], called with
    the positional arguments [args] and the keyword [initial]: it takes one
    or two positional arguments, and asks [iter(iterable)] when it is
    built. *)
Definition itertools_accumulate {T : Type} (operator_add : T -> T -> T)
  (args : list (pyobj T)) (kw_initial : option T) : result (iterator T) :=
  match args with
  | [iterable] =>
      match builtins_iter iterable with
      | Ok i =>
          Ok (Iterator (accumulate_next operator_add (inext i) None)
                ((None, kw_initial), icur i))
      | Raise e => Raise e
      end
  | [iterable; func] =>
      match builtins_iter iterable with
      | Ok i =>
          Ok (Iterator (accumulate_next operator_add (inext i) (Some func))
                ((None, kw_initial), icur i))
      | Raise e => Raise e
      end
  | _ => Raise TypeError
  end.

(** [sorted]: a stable sort that compares with [<] on the keys; with
    [reverse] the order is descending and equal keys keep their order. *)
Fixpoint insert_sorted {T K : Type} (lt : K -> K -> bool) (key : T -> K)
  (x : T) (l : list T) : list T :=
  match l with
  | [] => [x]
  | y :: r =>
      if lt (key x) (key y) then x :: y :: r
      else y :: insert_sorted lt key x r
  end.

Definition sort_list {T K : Type} (lt : K -> K -> bool) (key : T -> K)
  (l : list T) : list T :=
  fold_left (fun acc x => insert_sorted lt key x acc) l [].

Definition builtins_sorted {T K : Type} (lt : K -> K -> bool) (key : T -> K)
  (reverse : bool) (l : list T) : list T :=
  if reverse then rev (sort_list lt key (rev l)) else sort_list lt key l.

Definition on_it {T A : Type} (w : wrapper T) (m : M (ist (it w)) A)
  : result A * wrapper T :=
  match run (it w) m with
  | (r, i') => (r, Wrap i')
  end.

Definition on_it_opt {T A : Type} (w : wrapper T)
  (m : ist (it w) -> option (result A * ist (it w)))
  : option (result A * wrapper T) :=
  match run_opt (it w) m with
  | Some (r, i') => Some (r, Wrap i')
  | None => None
  end.

(** ** The combinatoric iterators of [itertools]

    They are embedded by the equivalent the documentation gives for each in
    terms of [product]: tuples of indices into the pool in lexicographic
    order, filtered. *)

(** [product(range(n), repeat=r)]: the last index moves fastest. *)
Fixpoint index_product (n r : nat) : list (list nat) :=
  match r with
  | O => [[]]
  | S r' =>
      flat_map (fun i => List.map (cons i) (index_product n r')) (seq 0 n)
  end.

(** [tuple(pool[i] for i in indices)]; the indices built here are always
    within the pool. *)
Definition select {T : Type} (pool : list T) (indices : list nat) : list T :=
  flat_map (fun i =>
              match nth_error pool i with
              | Some x => [x]
              | None => []
              end) indices.

(** [len(set(indices)) == r] keeps the tuples in which no index occurs
    twice. *)
Definition itertools_permutations {T : Type} (pool : list T) (r : nat)
  : list (list T) :=
  List.map (select pool)
    (List.filter
       (fun indices => length (nodup Nat.eq_dec indices) =? r)
       (index_product (length pool) r)).

(** [sorted(indices) == list(indices)] *)
Definition is_sorted (indices : list nat) : bool :=
  if list_eq_dec Nat.eq_dec
       (builtins_sorted Nat.ltb (fun i => i) false indices) indices
  then true else false.

(** The index tuples come from [permutations(range(n), r)]. *)
Definition itertools_combinations {T : Type} (pool : list T) (r : nat)
  : list (list T) :=
  List.map (select pool)
    (List.filter is_sorted
       (itertools_permutations (seq 0 (length pool)) r)).

Definition itertools_combinations_with_replacement {T : Type}
  (pool : list T) (r : nat) : list (list T) :=
  List.map (select pool)
    (List.filter is_sorted (index_product (length pool) r)).

(** [range(start, stop, step)] as the list of its elements. *)
Definition range_length (start stop step : Z) : nat :=
  if (0 <? step)%Z
  then if (start <? stop)%Z
       then Z.to_nat ((stop - start - 1) / step + 1)
       else O
  else if (stop <? start)%Z
       then Z.to_nat ((start - stop - 1) / (- step) + 1)
       else O.

Definition range_elements (start stop step : Z) : list Z :=
  List.map (fun i => (start + Z.of_nat i * step)%Z)
    (seq 0 (range_length start stop step)).

(** [builtins.range] takes one to three integers; a step of 0 is a
    [ValueError]. *)
Definition builtins_range (args : list Z) : result (list Z) :=
  match args with
  | [stop] => Ok (range_elements 0 stop 1)
  | [start; stop] => Ok (range_elements start stop 1)
  | [start; stop; step] =>
      if (step =? 0)%Z then Raise ValueError
      else Ok (range_elements start stop step)
  | _ => Raise TypeError
  end.

(** ** The free functions *)

(** [zip] over the unpacked list [[builtins.iter(iterable)] * chunk_size]:
    [chunk_size] references to one iterator. *)
Definition chunk {T : Type} (iterable : pyobj T) (chunk_size : Z)
  : result (iterator (list T)) :=
  match builtins_iter iterable with
  | Ok i => Ok (Iterator (zip_next (inext i) (times chunk_size)) (icur i))
  | Raise e => Raise e
  end.

(** [itertools.zip_longest] over the same unpacked list, with
    [fillvalue=default]. *)
Definition chunk_default {T : Type} (iterable : pyobj T) (chunk_size : Z)
  (default : T) : result (iterator (list T)) :=
  match builtins_iter iterable with
  | Ok i =>
      Ok (Iterator (zip_longest_next (inext i) default)
            ((repeat true (times chunk_size), times chunk_size), icur i))
  | Raise e => Raise e
  end.

(** ** The methods of class [iter]

    A method that consumes [self] returns the wrapper it leaves behind next
    to its result.  A method that only builds a lazy wrapper returns that
    wrapper, which starts from the state [self] has at the call. *)

Module iter.

(** [self.it = builtins.iter(it)]; [type(self)(x)] in the methods below is
    this constructor. *)
Definition __init__ {T : Type} (o : pyobj T) : result (wrapper T) :=
  match builtins_iter o with
  | Ok i => Ok (Wrap i)
  | Raise e => Raise e
  end.

(** [next(self.it)] *)
Definition next {T : Type} (w : wrapper T) : result T * wrapper T :=
  on_it w (inext (it w)).

(** [skip] returns [self]: the wrapper left behind. *)
Definition skip {T : Type} (n : Z) (w : wrapper T)
  : result unit * wrapper T :=
  on_it w (skip_loop (inext (it w)) (times n)).

Definition nth {T : Type} (n : Z) (w : wrapper T) : result T * wrapper T :=
  match skip n w with
  | (Ok _, w') => next w'
  | (Raise e, w') => (Raise e, w')
  end.

Definition take {T : Type} (n : Z) (w : wrapper T)
  : result (list T) * wrapper T :=
  on_it w (take_loop (inext (it w)) (times n)).

(** [list(self)]: [list] asks [self.__iter__()], which is [self.it]. *)
Definition collect {T : Type} (fuel : nat) (w : wrapper T)
  : option (result (list T) * wrapper T) :=
  on_it_opt w (list_loop (inext (it w)) fuel).

(** [functools.reduce(func, self)] or [functools.reduce(func, self,
    initial)]; [initial = None] stands for the sentinel. *)
Definition reduce {T : Type} (fuel : nat) (func : T -> T -> T)
  (initial : option T) (w : wrapper T) : option (result T * wrapper T) :=
  on_it_opt w (reduce_loop (inext (it w)) fuel func initial).

(** [type(self)(itertools.accumulate(func, self))] or
    [type(self)(itertools.accumulate(func, self, initial))]: [func] goes
    first and [self] second. *)
Definition accumulate {T : Type} (operator_add : T -> T -> T)
  (func : pyobj T) (initial : option T) (w : wrapper T)
  : result (wrapper T) :=
  match
    match initial with
    | None => itertools_accumulate operator_add [func; PyWrapper w] None
    | Some v =>
        itertools_accumulate operator_add [func; PyWrapper w; PyValue v] None
    end
  with
  | Ok i => __init__ (PyIterator i)
  | Raise e => Raise e
  end.

Definition chunk {T : Type} (n : Z) (w : wrapper T)
  : result (wrapper (list T)) :=
  match chunk (PyWrapper w) n with
  | Ok i => __init__ (PyIterator i)
  | Raise e => Raise e
  end.

Definition chunk_default {T : Type} (n : Z) (default : T) (w : wrapper T)
  : result (wrapper (list T)) :=
  match chunk_default (PyWrapper w) n default with
  | Ok i => __init__ (PyIterator i)
  | Raise e => Raise e
  end.

(** Calling the generator function only makes the generator object. *)
Definition _window {T : Type} (window_size : Z) (w : wrapper T)
  : iterator (list T) :=
  Iterator (window_next (inext (it w)) window_size) (WStart, icur (it w)).

Definition window {T : Type} (window_size : Z) (w : wrapper T)
  : result (wrapper (list T)) :=
  __init__ (PyIterator (_window window_size w)).

(** [type(self)(sorted(self, key=key, reverse=reverse))]; [key = None] is
    the identity. *)
Definition sorted {T K : Type} (lt : K -> K -> bool) (key : T -> K)
  (reverse : bool) (fuel : nat) (w : wrapper T)
  : option (result (wrapper T) * wrapper T) :=
  match collect fuel w with
  | Some (Ok l, w') =>
      Some (__init__ (PyList (builtins_sorted lt key reverse l)), w')
  | Some (Raise e, w') => Some (Raise e, w')
  | None => None
  end.

(** [type(self)(reversed(self))] *)
Definition reversed {T : Type} (w : wrapper T) : result (wrapper T) :=
  match builtins_reversed (PyWrapper w) with
  | Ok i => __init__ (PyIterator i)
  | Raise e => Raise e
  end.

(** [min(self, key=key)]: the first of the smallest; [ValueError] when there
    is no element. *)
Definition min {T K : Type} (lt : K -> K -> bool) (key : T -> K)
  (fuel : nat) (w : wrapper T) : option (result T * wrapper T) :=
  on_it_opt w
    (fold_from_first (inext (it w)) fuel
       (fun best x => if lt (key x) (key best) then x else best) ValueError).

(** [max(self, key=key)]: the first of the largest. *)
Definition max {T K : Type} (lt : K -> K -> bool) (key : T -> K)
  (fuel : nat) (w : wrapper T) : option (result T * wrapper T) :=
  on_it_opt w
    (fold_from_first (inext (it w)) fuel
       (fun best x => if lt (key best) (key x) then x else best) ValueError).

(** [itertools.tee(self, n)]: the state the [n] branches share; a negative
    [n] is a [ValueError]. *)
Definition tee {T : Type} (n : Z) (w : wrapper T)
  : result (ist (it w) * list (list T)) :=
  if (n <? 0)%Z then Raise ValueError
  else Ok (icur (it w), repeat [] (times n)).

(** Branch [b] of [self.tee(n)], as a wrapper over the shared state [ws]. *)
Definition tee_branch {T : Type} (w : wrapper T) (b : nat)
  (ws : ist (it w) * list (list T)) : wrapper T :=
  Wrap (Iterator (tee_next (inext (it w)) b) ws).

(** [type(self)(map(func, self))] *)
Definition map {T U : Type} (func : T -> U) (w : wrapper T)
  : result (wrapper U) :=
  __init__ (PyIterator (Iterator (map_next (inext (it w)) func) (icur (it w)))).

(** [type(self)(filter(pred, self))]: the wrapper over the filter object is
    kept as the test and the wrapper filtered; [pred = None] keeps the
    elements that are true, which [truthy] decides.  Pulling from it
    searches, so it takes fuel. *)
Record filtered (T : Type) : Type := Filtered {
  test : T -> bool;
  source : wrapper T
}.

Definition filter {T : Type} (truthy : T -> bool) (pred : option (T -> bool))
  (w : wrapper T) : result (filtered T) :=
  Ok (Filtered
        match pred with
        | Some p => p
        | None => truthy
        end
        w).

Definition filtered_next {T : Type} (fuel : nat) (f : filtered T)
  : option (result T * filtered T) :=
  match on_it_opt (source f)
          (filter_next (inext (it (source f))) fuel (test f)) with
  | Some (r, w') => Some (r, Filtered (test f) w')
  | None => None
  end.

Definition filtered_collect {T : Type} (fuel : nat) (f : filtered T)
  : option (result (list T) * filtered T) :=
  match on_it_opt (source f)
          (filter_list (inext (it (source f))) fuel (test f) []) with
  | Some (r, w') => Some (r, Filtered (test f) w')
  | None => None
  end.

(** [for el in self: func(el)]: [func] is called for its effect, on a
    world [W] here; the method returns [None]. *)
Definition foreach {T W : Type} (fuel : nat) (func : T -> W -> W)
  (world : W) (w : wrapper T) : option (result W * wrapper T) :=
  on_it_opt w
    (for_each (inext (it w)) fuel (fun wd el => func el wd) world).

(** [type(self)(itertools.chain(self, other))] *)
Definition chain {T : Type} (other : pyobj T) (w : wrapper T)
  : result (wrapper T) :=
  __init__
    (PyIterator
       match builtins_iter other with
       | Ok i2 =>
           Iterator (chain_next (inext (it w)) (inr (inext i2)))
             (CFirst, (icur (it w), icur i2))
       | Raise e =>
           Iterator (chain_next (St2 := unit) (inext (it w)) (inl e))
             (CFirst, (icur (it w), tt))
       end).


(** The three combinatoric methods.  [itertools] builds the pool from the
    whole iterable when the iterator is made, and only then looks at [r],
    which must not be negative; [r = None] in [permutations] is the size of
    the pool. *)
Definition permutations {T : Type} (fuel : nat) (r : option Z)
  (w : wrapper T) : option (result (wrapper (list T)) * wrapper T) :=
  match collect fuel w with
  | Some (Ok pool, w') =>
      Some (match r with
            | None =>
                __init__ (PyList (itertools_permutations pool (length pool)))
            | Some r' =>
                if (r' <? 0)%Z then Raise ValueError
                else __init__
                       (PyList (itertools_permutations pool (Z.to_nat r')))
            end, w')
  | Some (Raise e, w') => Some (Raise e, w')
  | None => None
  end.

Definition combinations {T : Type} (fuel : nat) (r : Z) (w : wrapper T)
  : option (result (wrapper (list T)) * wrapper T) :=
  match collect fuel w with
  | Some (Ok pool, w') =>
      Some (if (r <? 0)%Z then Raise ValueError
            else __init__
                   (PyList (itertools_combinations pool (Z.to_nat r))),
            w')
  | Some (Raise e, w') => Some (Raise e, w')
  | None => None
  end.

Definition combinations_with_replacement {T : Type} (fuel : nat) (r : Z)
  (w : wrapper T) : option (result (wrapper (list T)) * wrapper T) :=
  match collect fuel w with
  | Some (Ok pool, w') =>
      Some (if (r <? 0)%Z then Raise ValueError
            else __init__
                   (PyList
                      (itertools_combinations_with_replacement pool
                         (Z.to_nat r))),
            w')
  | Some (Raise e, w') => Some (Raise e, w')
  | None => None
  end.

End iter.

(** [iter(builtins.range(...))]: the keyword arguments, which
    [builtins.range] refuses, are left out. *)
Definition range (args : list Z) : result (wrapper Z) :=
  match builtins_range args with
  | Ok elements => iter.__init__ (PyList elements)
  | Raise e => Raise e
  end.

(** ** Finite producers *)

(** [producer nx rem]: the iterator stepping with [nx] is a finite
    single-pass producer, and [rem s] lists what it still has to yield in
    state [s]: it yields them in order, then raises [StopIteration], and
    keeps doing so. *)
Definition producer {St T : Type} (nx : M St T) (rem : St -> list T) : Prop :=
  forall s,
    match rem s with
    | [] => fst (nx s) = Raise StopIteration /\ rem (snd (nx s)) = []
    | x :: r => fst (nx s) = Ok x /\ rem (snd (nx s)) = r
    end.

Definition yields {T : Type} (i : iterator T) (l : list T) : Prop :=
  exists rem : ist i -> list T, producer (inext i) rem /\ rem (icur i) = l.

(** The wrapper has exactly the elements [l] left. *)
Definition remaining {T : Type} (w : wrapper T) (l : list T) : Prop :=
  yields (it w) l.

(** The wrapper made of a list: [iter(l)]. *)
Definition of_list {T : Type} (l : list T) : wrapper T :=
  Wrap (list_iterator l).

(** What branch [b] of a [tee] still has to yield, in the shared state [ws]
    over a producer with [rem] left: its deque, then what the shared
    iterator has left. *)
Definition view {St T : Type} (rem : St -> list T) (b : nat)
  (ws : St * list (list T)) : list T :=
  nth b (snd ws) [] ++ rem (fst ws).


(** ** [extract_ints]

    Text is a list of characters.  The pattern is an optional sign, [-] or
    [+], followed by one or more digits, all in one group. *)

(** [\d], on characters up to 255: the ten decimal digits. *)
Definition is_digit (c : ascii) : bool :=
  (48 <=? nat_of_ascii c) && (nat_of_ascii c <=? 57).

Definition is_sign (c : ascii) : bool :=
  Ascii.eqb c "-"%char || Ascii.eqb c "+"%char.

(** [\d+] is greedy: the longest run of digits at the start of the text,
    and the text after it. *)
Fixpoint span_digits (cs : list ascii) : list ascii * list ascii :=
  match cs with
  | [] => ([], [])
  | c :: r =>
      if is_digit c
      then match span_digits r with
           | (ds, rest) => (c :: ds, rest)
           end
      else ([], cs)
  end.

(** A match of the pattern at the start of the text: the matched text and
    what follows it.  A sign counts only with a digit right after it;
    without one the pattern is tried with no sign, and fails on the sign
    itself. *)
Definition match_here (cs : list ascii) : option (list ascii * list ascii) :=
  match cs with
  | [] => None
  | c :: r =>
      if is_sign c
      then match span_digits r with
           | ([], _) => None
           | (ds, rest) => Some (c :: ds, rest)
           end
      else match span_digits cs with
           | ([], _) => None
           | (ds, rest) => Some (ds, rest)
           end
  end.

(** [re.findall]: the matches from left to right, each search starting
    where the match before ended, or one character further when there is
    no match at a position.  A match is never empty, so the length of the
    text bounds the number of steps. *)
Fixpoint findall_from (fuel : nat) (cs : list ascii) : list (list ascii) :=
  match fuel with
  | O => []
  | S fuel' =>
      match cs with
      | [] => []
      | _ :: r =>
          match match_here cs with
          | Some (m, rest) => m :: findall_from fuel' rest
          | None => findall_from fuel' r
          end
      end
  end.

Definition re_findall (raw : list ascii) : list (list ascii) :=
  findall_from (length raw) raw.

Definition digit_value (c : ascii) : Z := Z.of_nat (nat_of_ascii c - 48).

Definition decimal_value (ds : list ascii) : Z :=
  fold_left (fun acc c => (10 * acc + digit_value c)%Z) ds 0%Z.

(** [int(text)] on an optional sign followed by digits; any other text is a
    [ValueError] here ([int] also reads blanks around the number and
    underscores between digits, which the pattern never hands to it). *)
Definition int_of_digits (ds : list ascii) : result Z :=
  match ds with
  | [] => Raise ValueError
  | _ :: _ =>
      if forallb is_digit ds then Ok (decimal_value ds)
      else Raise ValueError
  end.

Definition builtins_int (text : list ascii) : result Z :=
  match text with
  | [] => Raise ValueError
  | c :: ds =>
      if Ascii.eqb c "-"%char
      then match int_of_digits ds with
           | Ok z => Ok (- z)%Z
           | Raise e => Raise e
           end
      else if Ascii.eqb c "+"%char then int_of_digits ds
      else int_of_digits text
  end.

(** [list(map(f, xs))] for an [f] that may raise: the first exception ends
    it. *)
Fixpoint list_map {A B : Type} (f : A -> result B) (xs : list A)
  : result (list B) :=
  match xs with
  | [] => Ok []
  | x :: r =>
      match f x with
      | Ok y =>
          match list_map f r with
          | Ok ys => Ok (y :: ys)
          | Raise e => Raise e
          end
      | Raise e => Raise e
      end
  end.

Definition extract_ints (raw : list ascii) : result (list Z) :=
  list_map builtins_int (re_findall raw).
(** * Properties *)

Unset Implicit Arguments.

(** ** Producers step by step *)

Lemma producer_cons {St T : Type} (nx : M St T) (rem : St -> list T)
  (s : St) (x : T) (r : list T) :
  producer nx rem -> rem s = x :: r ->
  exists s', nx s = (Ok x, s') /\ rem s' = r.
Proof.
  intros P E. specialize (P s). rewrite E in P.
  destruct (nx s) as [res s']. simpl in P. destruct P as [-> Hr].
  now exists s'.
Qed.

Lemma producer_nil {St T : Type} (nx : M St T) (rem : St -> list T) (s : St) :
  producer nx rem -> rem s = [] ->
  exists s', nx s = (Raise StopIteration, s') /\ rem s' = [].
Proof.
  intros P E. specialize (P s). rewrite E in P.
  destruct (nx s) as [res s']. simpl in P. destruct P as [-> Hr].
  now exists s'.
Qed.

Lemma list_next_producer (T : Type) : producer (@list_next T) (fun l => l).
Proof. intros [|x r]; simpl; auto. Qed.

Lemma of_list_remaining (T : Type) (l : list T) : remaining (of_list l) l.
Proof.
  exists (fun l => l). split; [apply list_next_producer | reflexivity].
Qed.

Section ProducerLoops.
Context {St T : Type}.
Variable nx : M St T.
Variable rem : St -> list T.
Hypothesis Hprod : producer nx rem.

Lemma next_n_enough (n : nat) :
  forall s, n <= length (rem s) ->
  exists s', next_n nx n s = (Ok (firstn n (rem s)), s')
             /\ rem s' = skipn n (rem s).
Proof.
  induction n as [|n IH]; intros s Hn.
  - exists s. simpl. auto.
  - destruct (rem s) as [|x r] eqn:E; [simpl in Hn; lia|].
    destruct (producer_cons _ _ s _ _ Hprod E) as (s1 & H1 & R1).
    simpl in Hn. destruct (IH s1) as (s2 & H2 & R2); [rewrite R1; lia|].
    exists s2. simpl. unfold bind at 1. rewrite H1.
    unfold bind at 1. rewrite H2. rewrite R1 in *. auto.
Qed.

Lemma next_n_short (n : nat) :
  forall s, length (rem s) < n ->
  exists s', next_n nx n s = (Raise StopIteration, s') /\ rem s' = [].
Proof.
  induction n as [|n IH]; intros s Hn; [lia|].
  destruct (rem s) as [|x r] eqn:E.
  - destruct (producer_nil _ _ s Hprod E) as (s1 & H1 & R1).
    exists s1. simpl. unfold bind at 1. rewrite H1. auto.
  - destruct (producer_cons _ _ s _ _ Hprod E) as (s1 & H1 & R1).
    simpl in Hn. destruct (IH s1) as (s2 & H2 & R2); [rewrite R1; lia|].
    exists s2. simpl. unfold bind at 1. rewrite H1.
    unfold bind at 1. rewrite H2. auto.
Qed.

Lemma take_loop_enough (n : nat) :
  forall s, n <= length (rem s) ->
  exists s', take_loop nx n s = (Ok (firstn n (rem s)), s')
             /\ rem s' = skipn n (rem s).
Proof.
  induction n as [|n IH]; intros s Hn.
  - exists s. simpl. auto.
  - destruct (rem s) as [|x r] eqn:E; [simpl in Hn; lia|].
    destruct (producer_cons _ _ s _ _ Hprod E) as (s1 & H1 & R1).
    simpl in Hn. destruct (IH s1) as (s2 & H2 & R2); [rewrite R1; lia|].
    exists s2. simpl. unfold bind at 1, in_generator. rewrite H1.
    unfold bind at 1. rewrite H2. rewrite R1 in *. auto.
Qed.

(** Underflow in [take]: the [StopIteration] of [self.next()] leaves the
    generator expression as [RuntimeError], after the producer has been
    emptied. *)
Lemma take_loop_short (n : nat) :
  forall s, length (rem s) < n ->
  exists s', take_loop nx n s = (Raise RuntimeError, s') /\ rem s' = [].
Proof.
  induction n as [|n IH]; intros s Hn; [lia|].
  destruct (rem s) as [|x r] eqn:E.
  - destruct (producer_nil _ _ s Hprod E) as (s1 & H1 & R1).
    exists s1. simpl. unfold bind at 1, in_generator. rewrite H1. auto.
  - destruct (producer_cons _ _ s _ _ Hprod E) as (s1 & H1 & R1).
    simpl in Hn. destruct (IH s1) as (s2 & H2 & R2); [rewrite R1; lia|].
    exists s2. simpl. unfold bind at 1, in_generator. rewrite H1.
    unfold bind at 1. rewrite H2. auto.
Qed.

Lemma skip_loop_enough (n : nat) :
  forall s, n <= length (rem s) ->
  exists s', skip_loop nx n s = (Ok tt, s') /\ rem s' = skipn n (rem s).
Proof.
  induction n as [|n IH]; intros s Hn.
  - exists s. simpl. auto.
  - destruct (rem s) as [|x r] eqn:E; [simpl in Hn; lia|].
    destruct (producer_cons _ _ s _ _ Hprod E) as (s1 & H1 & R1).
    simpl in Hn. destruct (IH s1) as (s2 & H2 & R2); [rewrite R1; lia|].
    exists s2. simpl. unfold bind at 1. rewrite H1. rewrite R1 in *. auto.
Qed.

Lemma skip_loop_short (n : nat) :
  forall s, length (rem s) < n ->
  exists s', skip_loop nx n s = (Raise StopIteration, s') /\ rem s' = [].
Proof.
  induction n as [|n IH]; intros s Hn; [lia|].
  destruct (rem s) as [|x r] eqn:E.
  - destruct (producer_nil _ _ s Hprod E) as (s1 & H1 & R1).
    exists s1. simpl. unfold bind at 1. rewrite H1. auto.
  - destruct (producer_cons _ _ s _ _ Hprod E) as (s1 & H1 & R1).
    simpl in Hn. destruct (IH s1) as (s2 & H2 & R2); [rewrite R1; lia|].
    exists s2. simpl. unfold bind at 1. rewrite H1. auto.
Qed.

(** A [for] loop over a finite producer ends, having folded every remaining
    element in order, as soon as the fuel exceeds their number. *)
Lemma for_each_producer {A : Type} (body : A -> T -> A) (fuel : nat) :
  forall (acc : A) s, length (rem s) < fuel ->
  exists s', for_each nx fuel body acc s
             = Some (Ok (fold_left body (rem s) acc), s')
             /\ rem s' = [].
Proof.
  induction fuel as [|fuel IH]; intros acc s Hf; [lia|].
  destruct (rem s) as [|x r] eqn:E.
  - destruct (producer_nil _ _ s Hprod E) as (s1 & H1 & R1).
    exists s1. simpl. rewrite H1. auto.
  - destruct (producer_cons _ _ s _ _ Hprod E) as (s1 & H1 & R1).
    simpl in Hf. destruct (IH (body acc x) s1) as (s2 & H2 & R2);
      [rewrite R1; lia|].
    exists s2. simpl. rewrite H1, H2, R1. auto.
Qed.

Lemma fold_left_snoc (l : list T) :
  forall acc, fold_left (fun a el => a ++ [el]) l acc = acc ++ l.
Proof.
  induction l as [|x l IH]; intros acc; simpl.
  - now rewrite app_nil_r.
  - rewrite IH, <- app_assoc. reflexivity.
Qed.

Lemma list_loop_producer (fuel : nat) (s : St) :
  length (rem s) < fuel ->
  exists s', list_loop nx fuel s = Some (Ok (rem s), s') /\ rem s' = [].
Proof.
  intros Hf. unfold list_loop.
  destruct (for_each_producer (fun a el => a ++ [el]) fuel [] s Hf)
    as (s' & H & R).
  exists s'. rewrite H, fold_left_snoc. auto.
Qed.

End ProducerLoops.

(** ** Methods that consume the wrapper *)

Lemma remaining_intro {St T : Type} (nx : M St T) (rem : St -> list T)
  (s : St) (l : list T) :
  producer nx rem -> rem s = l -> remaining (Wrap (Iterator nx s)) l.
Proof. intros P E. exists rem. auto. Qed.

Lemma next_cons (T : Type) (w : wrapper T) (x : T) (l : list T) :
  remaining w (x :: l) ->
  exists w', iter.next w = (Ok x, w') /\ remaining w' l.
Proof.
  destruct w as [[St nx s]]. intros (rem & P & E). simpl in *.
  destruct (producer_cons _ _ s _ _ P E) as (s' & H & R).
  exists (Wrap (Iterator nx s')). split.
  - unfold iter.next, on_it, run. simpl. rewrite H. reflexivity.
  - eapply remaining_intro; eauto.
Qed.

Lemma next_nil (T : Type) (w : wrapper T) :
  remaining w [] ->
  exists w', iter.next w = (Raise StopIteration, w') /\ remaining w' [].
Proof.
  destruct w as [[St nx s]]. intros (rem & P & E). simpl in *.
  destruct (producer_nil _ _ s P E) as (s' & H & R).
  exists (Wrap (Iterator nx s')). split.
  - unfold iter.next, on_it, run. simpl. rewrite H. reflexivity.
  - eapply remaining_intro; eauto.
Qed.

Lemma take_enough (T : Type) (w : wrapper T) (l : list T) (n : Z) :
  remaining w l -> (n <= Z.of_nat (length l))%Z ->
  exists w', iter.take n w = (Ok (firstn (Z.to_nat n) l), w')
             /\ remaining w' (skipn (Z.to_nat n) l).
Proof.
  destruct w as [[St nx s]]. intros (rem & P & E) Hn. simpl in *.
  destruct (take_loop_enough _ _ P (times n) s) as (s' & H & R).
  { unfold times. rewrite E. lia. }
  exists (Wrap (Iterator nx s')). split.
  - unfold iter.take, on_it, run. simpl. rewrite H, E. reflexivity.
  - eapply remaining_intro; eauto. now rewrite R, E.
Qed.

Lemma take_short (T : Type) (w : wrapper T) (l : list T) (n : Z) :
  remaining w l -> (Z.of_nat (length l) < n)%Z ->
  exists w', iter.take n w = (Raise RuntimeError, w') /\ remaining w' [].
Proof.
  destruct w as [[St nx s]]. intros (rem & P & E) Hn. simpl in *.
  destruct (take_loop_short _ _ P (times n) s) as (s' & H & R).
  { unfold times. rewrite E. lia. }
  exists (Wrap (Iterator nx s')). split.
  - unfold iter.take, on_it, run. simpl. rewrite H. reflexivity.
  - eapply remaining_intro; eauto.
Qed.

Lemma skip_enough (T : Type) (w : wrapper T) (l : list T) (n : Z) :
  remaining w l -> (n <= Z.of_nat (length l))%Z ->
  exists w', iter.skip n w = (Ok tt, w')
             /\ remaining w' (skipn (Z.to_nat n) l).
Proof.
  destruct w as [[St nx s]]. intros (rem & P & E) Hn. simpl in *.
  destruct (skip_loop_enough _ _ P (times n) s) as (s' & H & R).
  { unfold times. rewrite E. lia. }
  exists (Wrap (Iterator nx s')). split.
  - unfold iter.skip, on_it, run. simpl. rewrite H. reflexivity.
  - eapply remaining_intro; eauto. now rewrite R, E.
Qed.

Lemma skip_short (T : Type) (w : wrapper T) (l : list T) (n : Z) :
  remaining w l -> (Z.of_nat (length l) < n)%Z ->
  exists w', iter.skip n w = (Raise StopIteration, w') /\ remaining w' [].
Proof.
  destruct w as [[St nx s]]. intros (rem & P & E) Hn. simpl in *.
  destruct (skip_loop_short _ _ P (times n) s) as (s' & H & R).
  { unfold times. rewrite E. lia. }
  exists (Wrap (Iterator nx s')). split.
  - unfold iter.skip, on_it, run. simpl. rewrite H. reflexivity.
  - eapply remaining_intro; eauto.
Qed.

Lemma nth_short (T : Type) (w : wrapper T) (l : list T) (n : Z) :
  remaining w l -> (0 <= n)%Z -> (Z.of_nat (length l) <= n)%Z ->
  exists w', iter.nth n w = (Raise StopIteration, w') /\ remaining w' [].
Proof.
  intros R H0 Hn. unfold iter.nth.
  destruct (Z.eq_dec n (Z.of_nat (length l))) as [E|NE].
  - destruct (skip_enough _ _ _ n R) as (w1 & H1 & R1); [lia|].
    rewrite H1. apply next_nil.
    rewrite skipn_all2 in R1; [exact R1 | lia].
  - destruct (skip_short _ _ _ n R) as (w1 & H1 & R1); [lia|].
    rewrite H1. eauto.
Qed.

Lemma collect_remaining (T : Type) (w : wrapper T) (l : list T) (fuel : nat) :
  remaining w l -> length l < fuel ->
  exists w', iter.collect fuel w = Some (Ok l, w') /\ remaining w' [].
Proof.
  destruct w as [[St nx s]]. intros (rem & P & E) Hf. simpl in *.
  destruct (list_loop_producer _ _ P fuel s) as (s' & H & R); [rewrite E; lia|].
  exists (Wrap (Iterator nx s')). split.
  - unfold iter.collect, on_it_opt, run_opt. simpl. rewrite H, E. reflexivity.
  - eapply remaining_intro; eauto.
Qed.

Lemma min_empty (T K : Type) (lt : K -> K -> bool) (key : T -> K)
  (fuel : nat) (w : wrapper T) :
  remaining w [] ->
  exists w', iter.min lt key fuel w = Some (Raise ValueError, w')
             /\ remaining w' [].
Proof.
  destruct w as [[St nx s]]. intros (rem & P & E). simpl in *.
  destruct (producer_nil _ _ s P E) as (s' & H & R).
  exists (Wrap (Iterator nx s')). split.
  - unfold iter.min, on_it_opt, run_opt, fold_from_first. simpl.
    rewrite H. reflexivity.
  - eapply remaining_intro; eauto.
Qed.

Lemma max_empty (T K : Type) (lt : K -> K -> bool) (key : T -> K)
  (fuel : nat) (w : wrapper T) :
  remaining w [] ->
  exists w', iter.max lt key fuel w = Some (Raise ValueError, w')
             /\ remaining w' [].
Proof.
  destruct w as [[St nx s]]. intros (rem & P & E). simpl in *.
  destruct (producer_nil _ _ s P E) as (s' & H & R).
  exists (Wrap (Iterator nx s')). split.
  - unfold iter.max, on_it_opt, run_opt, fold_from_first. simpl.
    rewrite H. reflexivity.
  - eapply remaining_intro; eauto.
Qed.

Lemma reduce_initial (T : Type) (w : wrapper T) (l : list T)
  (func : T -> T -> T) (initial : T) (fuel : nat) :
  remaining w l -> length l < fuel ->
  exists w', iter.reduce fuel func (Some initial) w
             = Some (Ok (fold_left func l initial), w')
             /\ remaining w' [].
Proof.
  destruct w as [[St nx s]]. intros (rem & P & E) Hf. simpl in *.
  destruct (for_each_producer _ _ P func fuel initial s)
    as (s' & H & R); [rewrite E; lia|].
  exists (Wrap (Iterator nx s')). split.
  - unfold iter.reduce, on_it_opt, run_opt, reduce_loop. simpl.
    rewrite H, E. reflexivity.
  - eapply remaining_intro; eauto.
Qed.

Lemma reduce_no_initial (T : Type) (w : wrapper T) (x : T) (l : list T)
  (func : T -> T -> T) (fuel : nat) :
  remaining w (x :: l) -> length l < fuel ->
  exists w', iter.reduce fuel func None w = Some (Ok (fold_left func l x), w')
             /\ remaining w' [].
Proof.
  destruct w as [[St nx s]]. intros (rem & P & E) Hf. simpl in *.
  destruct (producer_cons _ _ s _ _ P E) as (s1 & H1 & R1).
  destruct (for_each_producer _ _ P func fuel x s1)
    as (s' & H & R); [rewrite R1; lia|].
  exists (Wrap (Iterator nx s')). split.
  - unfold iter.reduce, on_it_opt, run_opt, reduce_loop, fold_from_first.
    simpl. rewrite H1, H, R1. reflexivity.
  - eapply remaining_intro; eauto.
Qed.

(** On an exhausted wrapper [functools.reduce] has no first element and
    raises its own [TypeError]. *)
Lemma reduce_empty (T : Type) (w : wrapper T) (func : T -> T -> T)
  (fuel : nat) :
  remaining w [] ->
  exists w', iter.reduce fuel func None w = Some (Raise TypeError, w')
             /\ remaining w' [].
Proof.
  destruct w as [[St nx s]]. intros (rem & P & E). simpl in *.
  destruct (producer_nil _ _ s P E) as (s' & H & R).
  exists (Wrap (Iterator nx s')). split.
  - unfold iter.reduce, on_it_opt, run_opt, reduce_loop, fold_from_first.
    simpl. rewrite H. reflexivity.
  - eapply remaining_intro; eauto.
Qed.

(** ** Underflow: [take], [skip], [next], [nth], [min], [max], [reduce] *)

(** C7, as the specification words it, fails: on underflow [take] does not
    signal the failure [next] signals, and [min] signals yet another one.
    With one element left, [take(2)] raises [RuntimeError]; [next] on an
    exhausted wrapper raises [StopIteration]; [min] on an exhausted wrapper
    raises [ValueError]: no failure kind is common to the three. *)
Lemma take_failure_kind_not_shared :
  ~ (exists e : exn,
       fst (iter.take 2 (of_list [1%Z])) = Raise e
       /\ fst (iter.next (of_list (@nil Z))) = Raise e
       /\ iter.min Z.ltb (fun x => x) 1 (of_list (@nil Z))
          = Some (Raise e, of_list [])).
Proof.
  intros (e & Htake & Hnext & Hmin).
  vm_compute in Htake, Hnext. congruence.
Qed.

(** C7 (amended): [take(n)] returns the next [n] elements, in order, when at
    least [n] remain, and leaves the rest; when fewer remain it signals a
    failure and returns no group at all.  On underflow [next], [skip] and
    [nth] raise [StopIteration], while [min] and [max] on an exhausted
    wrapper raise [ValueError]. *)
Theorem take_all_or_nothing (T : Type) (w : wrapper T) (l : list T) (n : Z) :
  remaining w l ->
  ((n <= Z.of_nat (length l))%Z ->
   exists w', iter.take n w = (Ok (firstn (Z.to_nat n) l), w')
              /\ remaining w' (skipn (Z.to_nat n) l))
  /\ ((Z.of_nat (length l) < n)%Z ->
      exists e w', iter.take n w = (Raise e, w'))
  /\ (l = [] -> exists w', iter.next w = (Raise StopIteration, w'))
  /\ ((Z.of_nat (length l) < n)%Z ->
      exists w', iter.skip n w = (Raise StopIteration, w'))
  /\ ((0 <= n)%Z -> (Z.of_nat (length l) <= n)%Z ->
      exists w', iter.nth n w = (Raise StopIteration, w'))
  /\ (l = [] ->
      forall (K : Type) (lt : K -> K -> bool) (key : T -> K) (fuel : nat),
        (exists w', iter.min lt key fuel w = Some (Raise ValueError, w'))
        /\ (exists w', iter.max lt key fuel w = Some (Raise ValueError, w'))).
Proof.
  intros R. repeat split.
  - intros Hn. apply take_enough; assumption.
  - intros Hn. destruct (take_short _ _ _ n R Hn) as (w' & H & _).
    exists RuntimeError, w'. exact H.
  - intros ->. destruct (next_nil _ _ R) as (w' & H & _). eauto.
  - intros Hn. destruct (skip_short _ _ _ n R Hn) as (w' & H & _). eauto.
  - intros H0 Hn. destruct (nth_short _ _ _ n R H0 Hn) as (w' & H & _). eauto.
  - subst l. destruct (min_empty _ _ lt key fuel _ R) as (w' & H & _). eauto.
  - subst l. destruct (max_empty _ _ lt key fuel _ R) as (w' & H & _). eauto.
Qed.

Lemma take_all_or_nothing_witness :
  (exists w', iter.take 2 (of_list [1; 2; 3]%Z) = (Ok [1; 2]%Z, w')
              /\ remaining w' [3%Z])
  /\ (exists e w', iter.take 4 (of_list [1; 2; 3]%Z) = (Raise e, w')).
Proof.
  pose proof (take_all_or_nothing Z (of_list [1; 2; 3]%Z) [1; 2; 3]%Z 2
                (of_list_remaining _ _)) as H2.
  pose proof (take_all_or_nothing Z (of_list [1; 2; 3]%Z) [1; 2; 3]%Z 4
                (of_list_remaining _ _)) as H4.
  split.
  - apply (proj1 H2). simpl. lia.
  - apply (proj1 (proj2 H4)). simpl. lia.
Defined.

(** C10: a failed [take(n)] or [skip(n)] is not atomic.  With [m < n]
    elements left the call fails, and the wrapper it leaves behind is
    exhausted: the [m] elements are gone and the next pull raises
    [StopIteration]. *)
Theorem failed_take_skip_consume (T : Type) (w : wrapper T) (l : list T)
  (n : Z) :
  remaining w l -> (Z.of_nat (length l) < n)%Z ->
  (exists e w', iter.take n w = (Raise e, w')
                /\ remaining w' []
                /\ exists w'', iter.next w' = (Raise StopIteration, w''))
  /\ (exists e w', iter.skip n w = (Raise e, w')
                   /\ remaining w' []
                   /\ exists w'', iter.next w' = (Raise StopIteration, w'')).
Proof.
  intros R Hn. split.
  - destruct (take_short _ _ _ n R Hn) as (w' & H & R').
    destruct (next_nil _ _ R') as (w'' & H'' & _).
    exists RuntimeError, w'. eauto.
  - destruct (skip_short _ _ _ n R Hn) as (w' & H & R').
    destruct (next_nil _ _ R') as (w'' & H'' & _).
    exists StopIteration, w'. eauto.
Qed.

Lemma failed_take_skip_consume_witness :
  (exists e w', iter.take 3 (of_list [1; 2]%Z) = (Raise e, w')
                /\ remaining w' []
                /\ exists w'', iter.next w' = (Raise StopIteration, w''))
  /\ (exists e w', iter.skip 3 (of_list [1; 2]%Z) = (Raise e, w')
                   /\ remaining w' []
                   /\ exists w'', iter.next w' = (Raise StopIteration, w'')).
Proof.
  apply (failed_take_skip_consume Z (of_list [1; 2]%Z) [1; 2]%Z 3).
  - apply of_list_remaining.
  - simpl. lia.
Defined.

(** C8, as the specification words it, fails: [reduce] without an initial
    value on an exhausted wrapper does not signal the failure that [next]
    signals there.  It raises [TypeError], [next] raises [StopIteration]. *)
Lemma reduce_empty_not_exhaustion :
  ~ (exists e : exn,
       fst (iter.next (of_list (@nil Z))) = Raise e
       /\ iter.reduce 1 Z.add None (of_list (@nil Z))
          = Some (Raise e, of_list [])).
Proof.
  intros (e & Hnext & Hred).
  vm_compute in Hnext, Hred. congruence.
Qed.

(** C8 (amended): [reduce] without an initial value returns the left fold of
    the remaining elements, seeded with the first, and on an exhausted
    wrapper raises [TypeError]; with an initial value it returns the left
    fold seeded with it, which on an exhausted wrapper is the initial value
    itself. *)
Theorem reduce_left_fold (T : Type) (w : wrapper T) (l : list T)
  (func : T -> T -> T) (fuel : nat) :
  remaining w l -> length l < fuel ->
  (forall x r, l = x :: r ->
     exists w', iter.reduce fuel func None w
                = Some (Ok (fold_left func r x), w'))
  /\ (l = [] ->
      exists w', iter.reduce fuel func None w = Some (Raise TypeError, w'))
  /\ (forall initial,
        exists w', iter.reduce fuel func (Some initial) w
                   = Some (Ok (fold_left func l initial), w'))
  /\ (l = [] ->
      forall initial,
        exists w', iter.reduce fuel func (Some initial) w
                   = Some (Ok initial, w')).
Proof.
  intros R Hf. repeat split.
  - intros x r ->. simpl in Hf.
    destruct (reduce_no_initial _ _ x r func fuel R) as (w' & H & _);
      [lia | eauto].
  - intros ->. destruct (reduce_empty _ _ func fuel R) as (w' & H & _). eauto.
  - intros initial.
    destruct (reduce_initial _ _ l func initial fuel R Hf) as (w' & H & _).
    eauto.
  - intros -> initial.
    destruct (reduce_initial _ _ [] func initial fuel R Hf) as (w' & H & _).
    eauto.
Qed.

Lemma reduce_left_fold_witness :
  (exists w', iter.reduce 5 Z.add None (of_list [1; 2; 3; 4]%Z)
              = Some (Ok 10%Z, w'))
  /\ (exists w', iter.reduce 5 Z.add None (of_list (@nil Z))
                 = Some (Raise TypeError, w'))
  /\ (exists w', iter.reduce 5 Z.add (Some 0%Z) (of_list (@nil Z))
                 = Some (Ok 0%Z, w')).
Proof.
  pose proof (reduce_left_fold Z (of_list [1; 2; 3; 4]%Z) [1; 2; 3; 4]%Z
                Z.add 5 (of_list_remaining _ _)) as H4.
  pose proof (reduce_left_fold Z (of_list (@nil Z)) [] Z.add 5
                (of_list_remaining _ _)) as H0.
  split; [|split].
  - apply (proj1 (H4 ltac:(simpl; lia)) 1%Z [2; 3; 4]%Z). reflexivity.
  - apply (proj1 (proj2 (H0 ltac:(simpl; lia)))). reflexivity.
  - apply (proj2 (proj2 (proj2 (H0 ltac:(simpl; lia))))). reflexivity.
Defined.

(** ** [chunk]: [zip] over one shared iterator *)

Lemma firstn_plus {T : Type} (a b : nat) (l : list T) :
  firstn (a + b) l = firstn a l ++ firstn b (skipn a l).
Proof.
  revert l. induction a as [|a IH]; intros l; simpl; [reflexivity|].
  destruct l as [|x l]; simpl.
  - now rewrite firstn_nil.
  - now rewrite IH.
Qed.

Lemma div_step (k len : nat) :
  0 < k -> k <= len -> len / k = S ((len - k) / k).
Proof.
  intros Hk Hle.
  replace len with (1 * k + (len - k)) at 1 by lia.
  rewrite Nat.div_add_l by lia. lia.
Qed.

Section ChunkRows.
Context {St T : Type}.
Variable nx : M St T.
Variable rem : St -> list T.
Hypothesis Hprod : producer nx rem.
Variable k : nat.
Hypothesis Hk : 0 < k.

Lemma zip_next_full (s : St) :
  k <= length (rem s) ->
  exists s', zip_next nx k s = (Ok (firstn k (rem s)), s')
             /\ rem s' = skipn k (rem s).
Proof.
  intros Hle. unfold zip_next. destruct k as [|k']; [lia|].
  apply next_n_enough; assumption.
Qed.

Lemma zip_next_short (s : St) :
  length (rem s) < k ->
  exists s', zip_next nx k s = (Raise StopIteration, s') /\ rem s' = [].
Proof.
  intros Hlt. unfold zip_next. destruct k as [|k']; [lia|].
  apply next_n_short; assumption.
Qed.

(** Draining the [zip]: the rows are the successive full groups of [k]. *)
Lemma zip_rows (fuel : nat) :
  forall (acc : list (list T)) (s : St),
    length (rem s) / k < fuel ->
    exists gs s',
      for_each (zip_next nx k) fuel (fun a el => a ++ [el]) acc s
      = Some (Ok (acc ++ gs), s')
      /\ length gs = length (rem s) / k
      /\ Forall (fun g => length g = k) gs
      /\ concat gs = firstn (k * (length (rem s) / k)) (rem s).
Proof.
  induction fuel as [|fuel IH]; intros acc s Hf; [lia|].
  destruct (le_lt_dec k (length (rem s))) as [Hle|Hlt].
  - destruct (zip_next_full s Hle) as (s1 & H1 & R1).
    assert (Hd : length (rem s) / k = S ((length (rem s) - k) / k))
      by (apply div_step; assumption).
    destruct (IH (acc ++ [firstn k (rem s)]) s1) as (gs & s2 & H2 & L & F & C).
    { rewrite R1, length_skipn. lia. }
    rewrite R1, length_skipn in L, C.
    exists (firstn k (rem s) :: gs), s2. simpl for_each. rewrite H1, H2.
    repeat split.
    + now rewrite <- app_assoc.
    + simpl. lia.
    + constructor; [|assumption]. rewrite length_firstn. lia.
    + simpl. rewrite C, Hd, Nat.mul_succ_r, Nat.add_comm.
      now rewrite firstn_plus.
  - destruct (zip_next_short s Hlt) as (s1 & H1 & R1).
    exists [], s1. simpl for_each. rewrite H1.
    rewrite (Nat.div_small _ _ Hlt), Nat.mul_0_r, app_nil_r. simpl.
    repeat split; auto.
Qed.

End ChunkRows.

(** C5: for a finite producer [l] and a size [n >= 1], [chunk] yields
    [length l / n] groups, each of [n] elements, and their concatenation is
    the first [n * (length l / n)] elements of [l] in order: a trailing
    incomplete group is dropped. *)
Theorem chunk_groups (T : Type) (w : wrapper T) (l : list T) (n : Z)
  (fuel : nat) :
  remaining w l -> (1 <= n)%Z -> length l < fuel ->
  exists (c : wrapper (list T)) (gs : list (list T)) (c' : wrapper (list T)),
    iter.chunk n w = Ok c
    /\ iter.collect fuel c = Some (Ok gs, c')
    /\ length gs = length l / Z.to_nat n
    /\ Forall (fun g => length g = Z.to_nat n) gs
    /\ concat gs = firstn (Z.to_nat n * (length l / Z.to_nat n)) l.
Proof.
  destruct w as [[St nx s]]. intros (rem & P & E) Hn Hf. simpl in *.
  assert (Hk : 0 < Z.to_nat n) by lia.
  destruct (zip_rows nx rem P (Z.to_nat n) Hk fuel [] s)
    as (gs & s' & H & L & F & C).
  { rewrite E.
    assert (length l / Z.to_nat n <= length l); [|lia].
    apply Nat.Div0.div_le_upper_bound. nia. }
  rewrite E in *.
  eexists _, gs, _. split; [reflexivity|]. split; [|auto].
  unfold iter.collect, on_it_opt, run_opt, list_loop, times. simpl.
  rewrite H. reflexivity.
Qed.

(** The scenario of C5, from the theorem: [chunk([1,2,3,4,5], 2)] collects
    to [(1,2), (3,4)], and 5 is dropped. *)
Lemma chunk_groups_witness :
  exists (c c' : wrapper (list Z)),
    iter.chunk 2 (of_list [1; 2; 3; 4; 5]%Z) = Ok c
    /\ iter.collect 6 c = Some (Ok [[1; 2]; [3; 4]]%Z, c').
Proof.
  destruct (chunk_groups Z (of_list [1; 2; 3; 4; 5]%Z) [1; 2; 3; 4; 5]%Z 2 6)
    as (c & gs & c' & Hc & Hg & L & F & C).
  - apply of_list_remaining.
  - lia.
  - simpl. lia.
  - exists c, c'. split; [exact Hc|].
    destruct gs as [|g1 [|g2 [|g3 gs]]]; try discriminate L.
    inversion F as [|? ? F1 F']. inversion F' as [|? ? F2 _].
    destruct g1 as [|a1 [|b1 [|? ?]]]; try discriminate F1.
    destruct g2 as [|a2 [|b2 [|? ?]]]; try discriminate F2.
    simpl in C. injection C as -> -> -> ->. exact Hg.
Defined.

(** ** [window]: the generator [_window] *)

Section WindowRows.
Context {St T : Type}.
Variable nx : M St T.
Variable rem : St -> list T.
Hypothesis Hprod : producer nx rem.
Variable n : Z.
Hypothesis Hn : (1 <= n)%Z.

(** Suspended at its [yield] with a full deque, the generator yields one
    window per remaining element: the deque slides by one each time. *)
Lemma window_loop (fuel : nat) :
  forall (acc : list (list T)) (elements : list T) (s : St),
    length elements = Z.to_nat n -> length (rem s) < fuel ->
    exists g' s',
      for_each (window_next nx n) fuel (fun a el => a ++ [el]) acc
        (WLoop elements, s)
      = Some (Ok (acc ++ map (fun j => firstn (Z.to_nat n)
                                         (skipn (S j) (elements ++ rem s)))
                         (seq 0 (length (rem s)))),
              (g', s'))
      /\ rem s' = [].
Proof.
  induction fuel as [|fuel IH]; intros acc elements s He Hf; [lia|].
  destruct (rem s) as [|x r] eqn:E.
  - destruct (producer_nil _ _ s Hprod E) as (s1 & H1 & R1).
    exists WDone, s1. simpl. rewrite H1, app_nil_r. auto.
  - destruct (producer_cons _ _ s _ _ Hprod E) as (s1 & H1 & R1).
    destruct elements as [|e rest]; [simpl in He; lia|].
    simpl in He, Hf.
    destruct (IH (acc ++ [rest ++ [x]]) (rest ++ [x]) s1)
      as (g' & s2 & H2 & R2).
    { rewrite length_app. simpl. lia. }
    { rewrite R1. lia. }
    exists g', s2. split; [|exact R2].
    simpl for_each. rewrite H1, H2, R1.
    match goal with
    | |- Some (Ok ?a, _) = Some (Ok ?b, _) =>
        assert (HH : a = b); [|rewrite HH; reflexivity]
    end.
    rewrite <- app_assoc. f_equal.
    change (seq 0 (length (x :: r))) with (0 :: seq 1 (length r)).
    cbn [map app]. f_equal.
    + change (skipn 1 (e :: rest ++ x :: r)) with (rest ++ x :: r).
      rewrite firstn_app.
      replace (Z.to_nat n - length rest) with 1 by lia.
      rewrite firstn_all2 by lia. reflexivity.
    + rewrite <- seq_shift, map_map. apply map_ext. intros j.
      change (skipn (S (S j)) (e :: rest ++ x :: r))
        with (skipn (S j) (rest ++ x :: r)).
      rewrite <- app_assoc. reflexivity.
Qed.

Lemma window_rows (fuel : nat) (s : St) :
  length (rem s) < fuel ->
  exists g' s',
    list_loop (window_next nx n) fuel (WStart, s)
    = Some (Ok (if Z.to_nat n <=? length (rem s)
                then map (fun i => firstn (Z.to_nat n) (skipn i (rem s)))
                       (seq 0 (length (rem s) - Z.to_nat n + 1))
                else []),
            (g', s'))
    /\ rem s' = [].
Proof.
  intros Hf. destruct fuel as [|fuel]; [lia|].
  unfold list_loop. simpl for_each. unfold times.
  destruct (Nat.leb_spec (Z.to_nat n) (length (rem s))) as [Hle|Hlt].
  - destruct (next_n_enough nx rem Hprod (Z.to_nat n) s Hle) as (s1 & H1 & R1).
    rewrite H1.
    destruct (window_loop fuel [firstn (Z.to_nat n) (rem s)]
                (firstn (Z.to_nat n) (rem s)) s1) as (g' & s2 & H2 & R2).
    { rewrite length_firstn. lia. }
    { rewrite R1, length_skipn. lia. }
    exists g', s2. split; [|exact R2].
    rewrite H2, R1, firstn_skipn, length_skipn.
    match goal with
    | |- Some (Ok ?a, _) = Some (Ok ?b, _) =>
        assert (HH : a = b); [|rewrite HH; reflexivity]
    end.
    rewrite Nat.add_comm.
    change (seq 0 (1 + (length (rem s) - Z.to_nat n)))
      with (0 :: seq 1 (length (rem s) - Z.to_nat n)).
    cbn [map app skipn]. f_equal.
    rewrite <- seq_shift, map_map. reflexivity.
  - destruct (next_n_short nx rem Hprod (Z.to_nat n) s Hlt) as (s1 & H1 & R1).
    rewrite H1. exists WDone, s1. auto.
Qed.

End WindowRows.

(** C4: for a finite producer [l] and [n >= 1], [window] yields nothing
    (and raises nothing) when [l] has fewer than [n] elements; otherwise it
    yields [length l - n + 1] groups and group [i], counting from 0, is the
    slice of [l] from index [i] to [i + n]. *)
Theorem window_slices (T : Type) (w : wrapper T) (l : list T) (n : Z)
  (fuel : nat) :
  remaining w l -> (1 <= n)%Z -> length l < fuel ->
  exists (v : wrapper (list T)) (gs : list (list T)) (v' : wrapper (list T)),
    iter.window n w = Ok v
    /\ iter.collect fuel v = Some (Ok gs, v')
    /\ (length l < Z.to_nat n -> gs = [])
    /\ (Z.to_nat n <= length l ->
        length gs = length l - Z.to_nat n + 1
        /\ forall i, i < length gs ->
             nth_error gs i = Some (firstn (Z.to_nat n) (skipn i l))).
Proof.
  destruct w as [[St nx s]]. intros (rem & P & E) Hn Hf. simpl in *.
  destruct (window_rows nx rem P n Hn fuel s) as (g' & s' & H & R);
    [rewrite E; exact Hf|].
  rewrite E in H.
  eexists _, _, _. split; [reflexivity|]. split.
  - unfold iter.collect, on_it_opt, run_opt. simpl. rewrite H. reflexivity.
  - split.
    + intros Hlt. destruct (Nat.leb_spec (Z.to_nat n) (length l)); [lia|].
      reflexivity.
    + intros Hle. destruct (Nat.leb_spec (Z.to_nat n) (length l)); [|lia].
      rewrite length_map, length_seq. split; [reflexivity|].
      intros i Hi.
      rewrite nth_error_map, nth_error_seq.
      destruct (Nat.ltb_spec i (length l - Z.to_nat n + 1)); [|lia].
      reflexivity.
Qed.

(** The scenarios of C4, from the theorem: [window([1,2,3], 2)] collects to
    [(1,2), (2,3)] and [window([1,2,3], 4)] to nothing. *)
Lemma window_slices_witness :
  (exists v v', iter.window 2 (of_list [1; 2; 3]%Z) = Ok v
                /\ iter.collect 4 v = Some (Ok [[1; 2]; [2; 3]]%Z, v'))
  /\ (exists v v', iter.window 4 (of_list [1; 2; 3]%Z) = Ok v
                   /\ iter.collect 4 v = Some (Ok [], v')).
Proof.
  split.
  - destruct (window_slices Z (of_list [1; 2; 3]%Z) [1; 2; 3]%Z 2 4)
      as (v & gs & v' & Hv & Hg & _ & Hs).
    + apply of_list_remaining.
    + lia.
    + simpl. lia.
    + exists v, v'. split; [exact Hv|].
      destruct Hs as (L & N); [simpl; lia|].
      simpl in L.
      destruct gs as [|g0 [|g1 [|g2 gs]]]; try discriminate L.
      pose proof (N 0 ltac:(simpl; lia)) as N0.
      pose proof (N 1 ltac:(simpl; lia)) as N1.
      simpl in N0, N1. injection N0 as ->. injection N1 as ->. exact Hg.
  - destruct (window_slices Z (of_list [1; 2; 3]%Z) [1; 2; 3]%Z 4 4)
      as (v & gs & v' & Hv & Hg & He & _).
    + apply of_list_remaining.
    + lia.
    + simpl. lia.
    + exists v, v'. split; [exact Hv|].
      rewrite He in Hg; [exact Hg | simpl; lia].
Defined.

(** ** [chunk_default]: [itertools.zip_longest] over one shared iterator *)

Lemma ceil_div_step (k len : nat) :
  0 < k -> k <= len -> (len + k - 1) / k = S ((len - k + k - 1) / k).
Proof.
  intros Hk Hle.
  replace (len + k - 1) with (1 * k + (len - k + k - 1)) by lia.
  rewrite Nat.div_add_l by lia. lia.
Qed.

Lemma ceil_div_one (k len : nat) :
  0 < len -> len < k -> (len + k - 1) / k = 1.
Proof.
  intros H0 Hlt.
  replace (len + k - 1) with (1 * k + (len - 1)) by lia.
  rewrite Nat.div_add_l by lia. rewrite Nat.div_small by lia. lia.
Qed.

Section ChunkDefaultRows.
Context {St T : Type}.
Variable nx : M St T.
Variable rem : St -> list T.
Hypothesis Hprod : producer nx rem.
Variable fillvalue : T.

(** A row over inactive slots only: all [fillvalue], nothing pulled. *)
Lemma row_inactive (b numactive : nat) (s : St) :
  zip_longest_row nx fillvalue (repeat false b) numactive s
  = (Ok (repeat fillvalue b, repeat false b), (numactive, s)).
Proof.
  induction b as [|b IH]; simpl; [reflexivity|].
  rewrite IH. reflexivity.
Qed.

(** A row on an exhausted producer: each active slot fails in turn; the row
    survives as all [fillvalue] only if some other slot stays active. *)
Lemma row_exhausted (a : nat) :
  forall (b numactive : nat) (s : St),
    rem s = [] -> 0 < numactive ->
    exists s',
      rem s' = []
      /\ zip_longest_row nx fillvalue (repeat true a ++ repeat false b)
           numactive s
         = if a <? numactive
           then (Ok (repeat fillvalue (a + b), repeat false (a + b)),
                 (numactive - a, s'))
           else (Raise StopIteration, (0, s')).
Proof.
  induction a as [|a IH]; intros b numactive s E Hn.
  - exists s. split; [exact E|]. simpl app. rewrite row_inactive.
    destruct (Nat.ltb_spec 0 numactive); [|lia].
    now rewrite Nat.sub_0_r.
  - destruct (producer_nil _ _ s Hprod E) as (s1 & H1 & R1).
    cbn [repeat app zip_longest_row]. rewrite H1.
    destruct (numactive - 1) as [|m] eqn:Em.
    + exists s1. split; [exact R1|].
      destruct (Nat.ltb_spec (S a) numactive); [lia|reflexivity].
    + destruct (IH b (S m) s1 R1) as (s2 & R2 & H2); [lia|].
      exists s2. split; [exact R2|]. rewrite H2.
      destruct (Nat.ltb_spec a (S m)); destruct (Nat.ltb_spec (S a) numactive);
        try lia; [|reflexivity].
      replace (numactive - S a) with (S m - a) by lia. reflexivity.
Qed.

(** A row over [a] active slots, from a producer with [rem s] left. *)
Lemma row_active (a : nat) :
  forall (numactive : nat) (s : St),
    0 < numactive ->
    exists s',
      rem s' = skipn a (rem s)
      /\ zip_longest_row nx fillvalue (repeat true a) numactive s
         = if a <=? length (rem s)
           then (Ok (firstn a (rem s), repeat true a), (numactive, s'))
           else if a - length (rem s) <? numactive
           then (Ok (rem s ++ repeat fillvalue (a - length (rem s)),
                     repeat true (length (rem s))
                     ++ repeat false (a - length (rem s))),
                 (numactive - (a - length (rem s)), s'))
           else (Raise StopIteration, (0, s')).
Proof.
  induction a as [|a IH]; intros numactive s Hn.
  - exists s. split; reflexivity.
  - destruct (rem s) as [|x r] eqn:E.
    + destruct (row_exhausted (S a) 0 numactive s E Hn) as (s' & R' & H').
      exists s'. split; [rewrite R'; reflexivity|].
      simpl repeat at 1 in H'. rewrite app_nil_r in H'.
      change (repeat true (S a)) with (true :: repeat true a).
      rewrite H'. simpl length. rewrite Nat.sub_0_r, Nat.add_0_r.
      destruct (Nat.leb_spec (S a) 0); [lia|]. reflexivity.
    + destruct (producer_cons _ _ s _ _ Hprod E) as (s1 & H1 & R1).
      destruct (IH numactive s1 Hn) as (s2 & R2 & H2).
      exists s2. split; [rewrite R2, R1; reflexivity|].
      cbn [repeat zip_longest_row]. rewrite H1, H2, R1.
      simpl length.
      change (S a <=? S (length r)) with (a <=? length r).
      change (S a - S (length r)) with (a - length r).
      destruct (a <=? length r); [reflexivity|].
      destruct (a - length r <? numactive); reflexivity.
Qed.

Variable k : nat.
Hypothesis Hk : 0 < k.

(** Draining the [zip_longest]: full groups of [k], then one group padded
    with [fillvalue] if elements are left over. *)
Lemma zip_longest_rows (fuel : nat) :
  forall (acc : list (list T)) (s : St),
    length (rem s) < fuel ->
    exists gs st',
      for_each (zip_longest_next nx fillvalue) fuel
        (fun a el => a ++ [el]) acc ((repeat true k, k), s)
      = Some (Ok (acc ++ gs), st')
      /\ length gs = (length (rem s) + k - 1) / k
      /\ Forall (fun g => length g = k) gs
      /\ concat gs
         = rem s ++ repeat fillvalue (k * length gs - length (rem s)).
Proof.
  induction fuel as [|fuel IH]; intros acc s Hf; [lia|].
  destruct (row_active k k s Hk) as (s1 & R1 & H1).
  assert (Hstep :
    zip_longest_next nx fillvalue ((repeat true k, k), s)
    = match zip_longest_row nx fillvalue (repeat true k) k s with
      | (Ok (items, slots'), (n', s')) => (Ok items, ((slots', n'), s'))
      | (Raise e, (n', s')) => (Raise e, ((repeat true k, n'), s'))
      end).
  { unfold zip_longest_next. destruct k as [|k']; [lia|]. reflexivity. }
  cbn [for_each]. rewrite Hstep, H1.
  destruct (Nat.leb_spec k (length (rem s))) as [Hle|Hlt].
  - (* a full group *)
    destruct (IH (acc ++ [firstn k (rem s)]) s1) as (gs & st' & H2 & L & F & C).
    { rewrite R1, length_skipn. lia. }
    rewrite R1, length_skipn in L, C.
    exists (firstn k (rem s) :: gs), st'. rewrite H2.
    repeat split.
    + now rewrite <- app_assoc.
    + simpl. rewrite L. symmetry. apply ceil_div_step; assumption.
    + constructor; [|assumption]. rewrite length_firstn. lia.
    + simpl concat. rewrite C, app_assoc, firstn_skipn. f_equal. f_equal.
      simpl length. rewrite Nat.mul_succ_r.
      assert (Hge : length (rem s) - k <= k * length gs).
      { rewrite L. pose proof (Nat.div_mod_eq (length (rem s) - k + k - 1) k).
        pose proof (Nat.mod_upper_bound (length (rem s) - k + k - 1) k).
        lia. }
      lia.
  - destruct (Nat.ltb_spec (k - length (rem s)) k) as [Hpos|Hzero].
    + (* some elements left: one padded group, then the end *)
      destruct fuel as [|fuel]; [lia|].
      destruct (row_exhausted (length (rem s)) (k - length (rem s))
                  (k - (k - length (rem s))) s1) as (s2 & R2 & H2).
      { rewrite R1. apply skipn_all2. lia. }
      { lia. }
      assert (Hstop :
        zip_longest_next nx fillvalue
          ((repeat true (length (rem s)) ++ repeat false (k - length (rem s)),
            k - (k - length (rem s))), s1)
        = (Raise StopIteration,
           ((repeat true (length (rem s))
             ++ repeat false (k - length (rem s)), 0), s2))).
      { unfold zip_longest_next. rewrite H2.
        destruct (Nat.ltb_spec (length (rem s)) (k - (k - length (rem s))));
          [lia|].
        destruct (rem s) as [|x r]; [simpl in Hpos; lia|].
        simpl length. simpl repeat at 1. cbn [app].
        destruct (k - (k - S (length r))) eqn:Ek; [lia|]. reflexivity. }
      eexists [_], _. cbn [for_each]. rewrite Hstop.
      repeat split.
      * simpl. symmetry. apply ceil_div_one; lia.
      * constructor; [|constructor].
        rewrite length_app, repeat_length. lia.
      * simpl. rewrite app_nil_r. f_equal. f_equal. lia.
    + (* nothing left: the end *)
      assert (E0 : length (rem s) = 0) by lia.
      exists [], ((repeat true k, 0), s1). rewrite app_nil_r.
      repeat split.
      * simpl. rewrite E0. symmetry. apply Nat.div_small. lia.
      * constructor.
      * simpl. rewrite Nat.mul_0_r. simpl.
        destruct (rem s); [reflexivity | discriminate E0].
Qed.

End ChunkDefaultRows.

(** C6: for a finite producer [l], a size [n >= 1] and any [default],
    [chunk_default] yields [(length l + n - 1) / n] groups, the ceiling of
    [length l / n], each of [n] elements; their concatenation is [l]
    followed by copies of [default] only, which fill the last group. *)
Theorem chunk_default_groups (T : Type) (w : wrapper T) (l : list T) (n : Z)
  (default : T) (fuel : nat) :
  remaining w l -> (1 <= n)%Z -> length l < fuel ->
  exists (c : wrapper (list T)) (gs : list (list T)) (c' : wrapper (list T)),
    iter.chunk_default n default w = Ok c
    /\ iter.collect fuel c = Some (Ok gs, c')
    /\ length gs = (length l + Z.to_nat n - 1) / Z.to_nat n
    /\ Forall (fun g => length g = Z.to_nat n) gs
    /\ concat gs
       = l ++ repeat default (Z.to_nat n * length gs - length l).
Proof.
  destruct w as [[St nx s]]. intros (rem & P & E) Hn Hf. simpl in *.
  assert (Hk : 0 < Z.to_nat n) by lia.
  destruct (zip_longest_rows nx rem P default (Z.to_nat n) Hk fuel [] s)
    as (gs & [st' s'] & H & L & F & C); [rewrite E; exact Hf|].
  rewrite E in *.
  eexists _, gs, _. split; [reflexivity|]. split; [|auto].
  unfold iter.collect, on_it_opt, run_opt, list_loop, times. simpl.
  rewrite H. reflexivity.
Qed.

(** The scenario of C6, from the theorem: [chunk_default([1,2,3,4,5], 2, 0)]
    collects to [(1,2), (3,4), (5,0)]. *)
Lemma chunk_default_groups_witness :
  exists (c c' : wrapper (list Z)),
    iter.chunk_default 2 0%Z (of_list [1; 2; 3; 4; 5]%Z) = Ok c
    /\ iter.collect 6 c = Some (Ok [[1; 2]; [3; 4]; [5; 0]]%Z, c').
Proof.
  destruct (chunk_default_groups Z (of_list [1; 2; 3; 4; 5]%Z)
              [1; 2; 3; 4; 5]%Z 2 0%Z 6)
    as (c & gs & c' & Hc & Hg & L & F & C).
  - apply of_list_remaining.
  - lia.
  - simpl. lia.
  - exists c, c'. split; [exact Hc|].
    destruct gs as [|g1 [|g2 [|g3 [|g4 gs]]]]; try discriminate L.
    inversion F as [|? ? F1 F']. inversion F' as [|? ? F2 F''].
    inversion F'' as [|? ? F3 _].
    destruct g1 as [|a1 [|b1 [|? ?]]]; try discriminate F1.
    destruct g2 as [|a2 [|b2 [|? ?]]]; try discriminate F2.
    destruct g3 as [|a3 [|b3 [|? ?]]]; try discriminate F3.
    simpl in C. injection C as -> -> -> -> -> ->. exact Hg.
Defined.

(** ** [tee]: branches over a shared state *)

Lemma replace_nth_length {A : Type} (d : A) (l : list A) (b : nat) :
  b < length l -> length (firstn b l ++ d :: skipn (S b) l) = length l.
Proof.
  intros Hb. rewrite length_app, length_firstn. cbn [length].
  rewrite length_skipn. lia.
Qed.

Lemma replace_nth_same {A : Type} (d dflt : A) (l : list A) (b : nat) :
  b < length l -> nth b (firstn b l ++ d :: skipn (S b) l) dflt = d.
Proof.
  intros Hb. rewrite app_nth2; rewrite length_firstn; [|lia].
  replace (b - Nat.min b (length l)) with 0 by lia. reflexivity.
Qed.

Lemma replace_nth_other {A : Type} (d dflt : A) (l : list A) (b b' : nat) :
  b < length l -> b' <> b ->
  nth b' (firstn b l ++ d :: skipn (S b) l) dflt = nth b' l dflt.
Proof.
  intros Hb Hne.
  rewrite <- (firstn_skipn b l) at 3.
  destruct (Nat.lt_ge_cases b' b) as [Hlt|Hge].
  - rewrite !app_nth1 by (rewrite length_firstn; lia). reflexivity.
  - rewrite !app_nth2 by (rewrite length_firstn; lia).
    rewrite length_firstn.
    replace (b' - Nat.min b (length l)) with (S (b' - S b)) by lia.
    simpl. rewrite <- (firstn_skipn 1 (skipn b l)) at 1.
    rewrite skipn_skipn. rewrite app_nth2; rewrite length_firstn, length_skipn.
    + replace (S (b' - S b) - Nat.min 1 (length l - b)) with (b' - S b) by lia.
      reflexivity.
    + lia.
Qed.

Section TeeBranches.
Context {St T : Type}.
Variable nx : M St T.
Variable rem : St -> list T.
Hypothesis Hprod : producer nx rem.

(** One pull of branch [b] takes the head of its view and leaves every
    other view as it was. *)
Lemma tee_next_step (b : nat) (ws : St * list (list T)) :
  b < length (snd ws) ->
  exists ws',
    length (snd ws') = length (snd ws)
    /\ (forall b', b' <> b -> b' < length (snd ws) ->
          view rem b' ws' = view rem b' ws)
    /\ match view rem b ws with
       | [] =>
           tee_next nx b ws = (Raise StopIteration, ws') /\ view rem b ws' = []
       | x :: v => tee_next nx b ws = (Ok x, ws') /\ view rem b ws' = v
       end.
Proof.
  destruct ws as [s deques]. unfold view. simpl. intros Hb.
  unfold tee_next. rewrite (nth_error_nth' deques [] Hb).
  destruct (nth b deques []) as [|x d] eqn:Ed.
  - simpl app. destruct (rem s) as [|x r] eqn:E.
    + destruct (producer_nil _ _ s Hprod E) as (s1 & H1 & R1).
      exists (s1, deques). simpl. rewrite H1, R1, Ed.
      repeat split; auto.
    + destruct (producer_cons _ _ s _ _ Hprod E) as (s1 & H1 & R1).
      set (loaded := map (fun d => d ++ [x]) deques).
      assert (Hl : length loaded = length deques) by apply length_map.
      assert (Hnth : forall b', b' < length deques ->
                nth b' loaded [] = nth b' deques [] ++ [x]).
      { intros b' Hb'. unfold loaded.
        rewrite (nth_indep _ [] ([] ++ [x])) by (rewrite length_map; lia).
        apply (map_nth (fun d => d ++ [x])). }
      exists (s1, firstn b loaded ++ [] :: skipn (S b) loaded).
      rewrite H1. unfold popleft. fold loaded.
      rewrite (nth_error_nth' loaded [] (eq_ind_r (fun k => b < k) Hb Hl)).
      rewrite (Hnth b Hb), Ed. cbn [fst snd app].
      rewrite R1. repeat split.
      * rewrite replace_nth_length; lia.
      * intros b' Hne Hb'.
        rewrite replace_nth_other by lia.
        rewrite (Hnth b' Hb'), <- app_assoc. reflexivity.
      * rewrite replace_nth_same by lia. reflexivity.
  - exists (s, firstn b deques ++ d :: skipn (S b) deques). cbn [fst snd app].
    repeat split.
    + rewrite replace_nth_length; lia.
    + intros b' Hne Hb'. rewrite replace_nth_other by lia. reflexivity.
    + rewrite replace_nth_same by lia. reflexivity.
Qed.

(** A pull through a handle that is no branch changes nothing. *)
Lemma tee_next_no_branch (b : nat) (ws : St * list (list T)) :
  length (snd ws) <= b -> tee_next nx b ws = (Raise IndexError, ws).
Proof.
  destruct ws as [s deques]. simpl. intros Hb. unfold tee_next.
  apply nth_error_None in Hb. rewrite Hb. reflexivity.
Qed.

(** Whatever the order in which the branches are pulled, what a branch has
    received so far and what it still has to yield make up its view at the
    start. *)
Lemma drive_views (sched : list nat) :
  forall (ws : St * list (list T)),
    length (snd (snd (drive nx sched ws))) = length (snd ws)
    /\ forall b, b < length (snd ws) ->
         received b (fst (drive nx sched ws))
         ++ view rem b (snd (drive nx sched ws))
         = view rem b ws.
Proof.
  induction sched as [|b0 sched IH]; intros ws.
  - simpl. auto.
  - cbn [drive].
    destruct (Nat.lt_ge_cases b0 (length (snd ws))) as [Hb0|Hb0].
    + destruct (tee_next_step b0 ws Hb0) as (ws1 & L1 & O1 & S1).
      destruct (IH ws1) as (L2 & V2).
      destruct (view rem b0 ws) as [|x v] eqn:Ev.
      * destruct S1 as (H1 & V1). rewrite H1.
        destruct (drive nx sched ws1) as [trace ws2]. simpl in *.
        split; [lia|]. intros b Hb.
        destruct (Nat.eq_dec b b0) as [->|Hne].
        -- rewrite V2 by lia. rewrite V1, Ev. reflexivity.
        -- rewrite V2 by lia. apply O1; assumption.
      * destruct S1 as (H1 & V1). rewrite H1.
        destruct (drive nx sched ws1) as [trace ws2]. simpl in *.
        split; [lia|]. intros b Hb.
        destruct (Nat.eqb_spec b b0) as [->|Hne].
        -- simpl. rewrite V2 by lia. rewrite V1, Ev. reflexivity.
        -- rewrite V2 by lia. apply O1; assumption.
    + rewrite (tee_next_no_branch b0 ws Hb0).
      destruct (IH ws) as (L2 & V2).
      destruct (drive nx sched ws) as [trace ws2]. simpl in *.
      split; [exact L2|]. intros b Hb. apply V2. exact Hb.
Qed.

(** Collecting a branch yields its view. *)
Lemma tee_collect (b : nat) (fuel : nat) :
  forall (acc : list T) (ws : St * list (list T)),
    b < length (snd ws) -> length (view rem b ws) < fuel ->
    exists ws',
      for_each (tee_next nx b) fuel (fun a el => a ++ [el]) acc ws
      = Some (Ok (acc ++ view rem b ws), ws').
Proof.
  induction fuel as [|fuel IH]; intros acc ws Hb Hf; [lia|].
  destruct (tee_next_step b ws Hb) as (ws1 & L1 & _ & S1).
  cbn [for_each].
  destruct (view rem b ws) as [|x v] eqn:Ev.
  - destruct S1 as (H1 & _). rewrite H1. exists ws1.
    now rewrite app_nil_r.
  - destruct S1 as (H1 & V1). rewrite H1.
    destruct (IH (acc ++ [x]) ws1) as (ws2 & H2).
    + lia.
    + rewrite V1. simpl in Hf. lia.
    + exists ws2. rewrite H2, V1, <- app_assoc. reflexivity.
Qed.

End TeeBranches.

(** Pulling a branch wrapper is a pull on the shared state. *)
Lemma tee_branch_next (T : Type) (w : wrapper T) (b : nat)
  (ws : ist (it w) * list (list T)) :
  iter.next (iter.tee_branch w b ws)
  = (fst (tee_next (inext (it w)) b ws),
     iter.tee_branch w b (snd (tee_next (inext (it w)) b ws))).
Proof.
  unfold iter.next, iter.tee_branch, on_it, run. simpl.
  destruct (tee_next (inext (it w)) b ws) as [r ws']. reflexivity.
Qed.

(** C9: collecting the producer itself gives [l], and every branch of
    [tee] collects to that same [l], whatever pulls were made before, on
    whichever branches and in whichever order: what branch [b] received
    during the interleaved pulls [sched], followed by what collecting it
    then returns, is [l]. *)
Theorem tee_branches_replay (T : Type) (w : wrapper T) (l : list T) (n : Z)
  (sched : list nat) (b : nat) (fuel : nat) :
  remaining w l -> b < Z.to_nat n -> length l < fuel ->
  (exists w', iter.collect fuel w = Some (Ok l, w'))
  /\ exists (ws : ist (it w) * list (list T)) (rest : list T)
       (c' : wrapper T),
      iter.tee n w = Ok ws
      /\ iter.collect fuel
           (iter.tee_branch w b (snd (drive (inext (it w)) sched ws)))
         = Some (Ok rest, c')
      /\ received b (fst (drive (inext (it w)) sched ws)) ++ rest = l.
Proof.
  intros R Hb Hf. split.
  { destruct (collect_remaining _ _ l fuel R Hf) as (w' & H & _). eauto. }
  revert R. destruct w as [[St nx s]]. intros (rem & P & E). simpl in *.
  set (ws := (s, repeat (@nil T) (Z.to_nat n))).
  assert (Hlen : length (snd ws) = Z.to_nat n) by apply repeat_length.
  assert (Hview : view rem b ws = l).
  { unfold view, ws. simpl. rewrite nth_repeat. exact E. }
  destruct (drive_views nx rem P sched ws) as (L & V).
  specialize (V b ltac:(lia)). rewrite Hview in V.
  destruct (tee_collect nx rem P b fuel [] (snd (drive nx sched ws)))
    as (ws' & H).
  { lia. }
  { apply (f_equal (@length T)) in V. rewrite length_app in V. lia. }
  exists ws, (view rem b (snd (drive nx sched ws))),
    (Wrap (Iterator (tee_next nx b) ws')).
  split; [|split].
  - unfold iter.tee, times. simpl. destruct (Z.ltb_spec n 0); [lia|].
    reflexivity.
  - unfold iter.collect, iter.tee_branch, on_it_opt, run_opt, list_loop.
    simpl. rewrite H. reflexivity.
  - exact V.
Qed.

(** Two branches of [tee([1,2,3])] pulled in the order 0, 1, 1, 0, 1: the
    second branch has received 1, 2, 3 and collects to nothing more; and
    with no pull before, it collects to 1, 2, 3. *)
Lemma tee_branches_replay_witness :
  (exists ws rest c',
      iter.tee 2 (of_list [1; 2; 3]%Z) = Ok ws
      /\ iter.collect 4
           (iter.tee_branch (of_list [1; 2; 3]%Z) 1
              (snd (drive list_next [0; 1; 1; 0; 1] ws)))
         = Some (Ok rest, c')
      /\ received 1 (fst (drive list_next [0; 1; 1; 0; 1] ws)) ++ rest
         = [1; 2; 3]%Z)
  /\ (exists ws rest c',
         iter.tee 2 (of_list [1; 2; 3]%Z) = Ok ws
         /\ iter.collect 4
              (iter.tee_branch (of_list [1; 2; 3]%Z) 1
                 (snd (drive list_next [] ws)))
            = Some (Ok rest, c')
         /\ received 1 (fst (drive list_next [] ws)) ++ rest = [1; 2; 3]%Z).
Proof.
  split.
  - apply (tee_branches_replay Z (of_list [1; 2; 3]%Z) [1; 2; 3]%Z 2
             [0; 1; 1; 0; 1] 1 4).
    + apply of_list_remaining.
    + simpl. lia.
    + simpl. lia.
  - apply (tee_branches_replay Z (of_list [1; 2; 3]%Z) [1; 2; 3]%Z 2 [] 1 4).
    + apply of_list_remaining.
    + simpl. lia.
    + simpl. lia.
Defined.

(** The same interleaving, evaluated: after the pulls 0, 1, 1, 0, 1 the
    first branch has received 1, 2 and collects to 3; the second has
    received 1, 2, 3 and collects to nothing more. *)
Example tee_interleaved_scenario :
  exists ws c0 c1,
    iter.tee 2 (of_list [1; 2; 3]%Z) = Ok ws
    /\ received 0 (fst (drive list_next [0; 1; 1; 0; 1] ws)) = [1; 2]%Z
    /\ iter.collect 4
         (iter.tee_branch (of_list [1; 2; 3]%Z) 0
            (snd (drive list_next [0; 1; 1; 0; 1] ws)))
       = Some (Ok [3%Z], c0)
    /\ received 1 (fst (drive list_next [0; 1; 1; 0; 1] ws)) = [1; 2; 3]%Z
    /\ iter.collect 4
         (iter.tee_branch (of_list [1; 2; 3]%Z) 1
            (snd (drive list_next [0; 1; 1; 0; 1] ws)))
       = Some (Ok [], c1).
Proof. eexists _, _, _. repeat split; reflexivity. Qed.

(** ** Sizes that are not positive *)

(** C2, as the specification words it, fails: with size 0 none of [chunk],
    [chunk_default] and [window] raises at the call. *)
Lemma nonpositive_size_not_rejected :
  ~ (exists e, iter.chunk 0 (of_list [1; 2]%Z) = Raise e)
  /\ ~ (exists e, iter.chunk_default 0 0%Z (of_list [1; 2]%Z) = Raise e)
  /\ ~ (exists e, iter.window 0 (of_list [1; 2]%Z) = Raise e).
Proof.
  repeat split; intros (e & H); discriminate H.
Qed.

(** C2 (amended): with a size [n <= 0], on any wrapper whatever, [chunk],
    [chunk_default] and [window] raise nothing at the call and pull
    nothing: the wrapper they return starts from the state [self] is in.
    The wrapper of [chunk] and of [chunk_default] is empty, and collecting
    it pulls nothing either.  The first pull on the wrapper of [window]
    yields one empty group, still without pulling from [self]. *)
Theorem nonpositive_size_is_lazy (T : Type) (w : wrapper T) (n : Z)
  (default : T) :
  (n <= 0)%Z ->
  (exists c,
      iter.chunk n w = Ok c
      /\ it c = Iterator (zip_next (inext (it w)) 0) (icur (it w))
      /\ forall fuel, iter.collect (S fuel) c = Some (Ok [], c))
  /\ (exists c,
         iter.chunk_default n default w = Ok c
         /\ it c = Iterator (zip_longest_next (inext (it w)) default)
                     (([], 0), icur (it w))
         /\ forall fuel, iter.collect (S fuel) c = Some (Ok [], c))
  /\ (exists v v',
         iter.window n w = Ok v
         /\ it v = Iterator (window_next (inext (it w)) n)
                     (WStart, icur (it w))
         /\ iter.next v = (Ok [], v')
         /\ it v' = Iterator (window_next (inext (it w)) n)
                      (WLoop [], icur (it w))).
Proof.
  intros Hn. destruct w as [[St nx s]].
  assert (Ht : times n = 0) by (unfold times; lia).
  split; [|split].
  - eexists. split; [|split].
    + unfold iter.chunk, chunk. simpl. rewrite Ht. reflexivity.
    + reflexivity.
    + intros fuel. reflexivity.
  - eexists. split; [|split].
    + unfold iter.chunk_default, chunk_default. simpl. rewrite Ht. reflexivity.
    + reflexivity.
    + intros fuel. reflexivity.
  - eexists _, _. split; [|split; [|split]].
    + reflexivity.
    + reflexivity.
    + unfold iter.next, iter._window, on_it, run. simpl. rewrite Ht.
      reflexivity.
    + reflexivity.
Qed.

Lemma nonpositive_size_is_lazy_witness :
  (exists c,
      iter.chunk (-1) (of_list [1; 2]%Z) = Ok c
      /\ it c = Iterator (zip_next list_next 0) [1; 2]%Z
      /\ forall fuel, iter.collect (S fuel) c = Some (Ok [], c))
  /\ (exists c,
         iter.chunk_default (-1) 0%Z (of_list [1; 2]%Z) = Ok c
         /\ it c = Iterator (zip_longest_next list_next 0%Z)
                     (([], 0), [1; 2]%Z)
         /\ forall fuel, iter.collect (S fuel) c = Some (Ok [], c))
  /\ (exists v v',
         iter.window (-1) (of_list [1; 2]%Z) = Ok v
         /\ it v = Iterator (window_next list_next (-1)) (WStart, [1; 2]%Z)
         /\ iter.next v = (Ok [], v')
         /\ it v' = Iterator (window_next list_next (-1))
                      (WLoop [], [1; 2]%Z)).
Proof.
  apply (nonpositive_size_is_lazy Z (of_list [1; 2]%Z) (-1) 0%Z). lia.
Defined.

(** What the wrapper of [window] does after its empty group, when the size
    is not positive: on an exhausted producer it ends; with an element left
    the deque it pops is empty and the pull raises [IndexError]. *)
Lemma window_nonpositive_second_pull (T : Type) (w : wrapper T) (l : list T)
  (n : Z) :
  remaining w l ->
  exists v',
    iter.next (Wrap (Iterator (window_next (inext (it w)) n)
                       (WLoop [], icur (it w))))
    = (Raise (match l with [] => StopIteration | _ :: _ => IndexError end), v').
Proof.
  destruct w as [[St nx s]]. intros (rem & P & E). simpl in *.
  unfold iter.next, on_it, run. simpl. destruct l as [|x r].
  - destruct (producer_nil _ _ s P E) as (s' & H & _). rewrite H. eauto.
  - destruct (producer_cons _ _ s _ _ P E) as (s' & H & _). rewrite H. eauto.
Qed.

(** ** [accumulate] and [reversed] *)

(** What [itertools.accumulate] gives when the iterable goes first: the
    running sums of 1, 2, 3 are 1, 3, 6, and an [initial] is yielded before
    them. *)
Example itertools_accumulate_iterable_first :
  (exists i i',
      itertools_accumulate Z.add
        [PyWrapper (of_list [1; 2; 3]%Z); PyCallable Z.add] None = Ok i
      /\ builtins_list 4 i = Some (Ok [1; 3; 6]%Z, i'))
  /\ (exists i i',
         itertools_accumulate Z.add
           [PyWrapper (of_list [1; 2; 3]%Z); PyCallable Z.add] (Some 10%Z)
         = Ok i
         /\ builtins_list 5 i = Some (Ok [10; 11; 13; 16]%Z, i')).
Proof. split; eexists _, _; split; reflexivity. Qed.

(** C1 fails on the code: [accumulate] hands [func] to
    [itertools.accumulate] as the iterable and [self] as the function.
    [accumulate()] on the producer 1, 2, 3 raises [TypeError] at the call,
    and so does every call with a function, with or without an initial
    value: a function is not iterable, and three positional arguments are
    one too many. *)
Theorem accumulate_raises_type_error :
  iter.accumulate Z.add (PyCallable Z.add) None (of_list [1; 2; 3]%Z)
  = Raise TypeError
  /\ forall (T : Type) (operator_add f : T -> T -> T) (initial : option T)
       (w : wrapper T),
       iter.accumulate operator_add (PyCallable f) initial w = Raise TypeError.
Proof.
  split; [reflexivity|]. intros T operator_add f [v|] w; reflexivity.
Qed.

(** C3 fails on the code: [reversed(self)] is asked of the wrapper, which is
    not reversible, so [reversed()] raises [TypeError] on every wrapper;
    [sorted()] of 3, 1, 2 is a wrapper over 1, 2, 3, and [reversed()] of it
    raises. *)
Theorem reversed_raises_type_error :
  (forall (T : Type) (w : wrapper T), iter.reversed w = Raise TypeError)
  /\ iter.sorted Z.ltb (fun x => x) false 4 (of_list [3; 1; 2]%Z)
     = Some (Ok (of_list [1; 2; 3]%Z), of_list [])
  /\ iter.reversed (of_list [1; 2; 3]%Z) = Raise TypeError.
Proof.
  split; [|split]; reflexivity.
Qed.

(** [sorted] drains a finite producer and wraps the sorted list. *)
Lemma sorted_collects (T K : Type) (lt : K -> K -> bool) (key : T -> K)
  (reverse : bool) (w : wrapper T) (l : list T) (fuel : nat) :
  remaining w l -> length l < fuel ->
  exists w',
    iter.sorted lt key reverse fuel w
    = Some (Ok (of_list (builtins_sorted lt key reverse l)), w')
    /\ remaining w' [].
Proof.
  intros R Hf. destruct (collect_remaining _ _ l fuel R Hf) as (w' & H & R').
  exists w'. unfold iter.sorted. rewrite H. auto.
Qed.

(** * Further properties *)

(** ** [map], [chain], [filter], [sum], [foreach] *)

Lemma map_next_producer {St T U : Type} (nx : M St T) (rem : St -> list T)
  (func : T -> U) :
  producer nx rem -> producer (map_next nx func) (fun s => map func (rem s)).
Proof.
  intros P s. unfold map_next, bind, ret.
  destruct (rem s) as [|x r] eqn:E.
  - destruct (producer_nil _ _ s P E) as (s' & H & R).
    rewrite H. simpl. rewrite R. auto.
  - destruct (producer_cons _ _ s _ _ P E) as (s' & H & R).
    rewrite H. simpl. rewrite R. auto.
Qed.

(** X1: [map(func)] pulls nothing at the call, and the wrapper it returns is a
    finite producer of [func] applied to each remaining element, in order:
    collecting it gives exactly that list. *)
Theorem map_elementwise (T U : Type) (func : T -> U) (w : wrapper T)
  (l : list T) (fuel : nat) :
  remaining w l -> length l < fuel ->
  exists m m',
    iter.map func w = Ok m
    /\ remaining m (map func l)
    /\ iter.collect fuel m = Some (Ok (map func l), m').
Proof.
  destruct w as [[St nx s]]. intros (rem & P & E) Hf. simpl in *.
  assert (R : remaining
                (Wrap (Iterator (map_next nx func) s)) (map func l)).
  { exists (fun s => map func (rem s)). split.
    - apply map_next_producer. exact P.
    - simpl. now rewrite E. }
  destruct (collect_remaining _ _ (map func l) fuel R) as (m' & H & _).
  { now rewrite length_map. }
  eexists _, m'. split; [reflexivity|]. split; assumption.
Qed.

Lemma map_elementwise_witness :
  exists m m',
    iter.map Z.succ (of_list [1; 2; 3]%Z) = Ok m
    /\ remaining m [2; 3; 4]%Z
    /\ iter.collect 4 m = Some (Ok [2; 3; 4]%Z, m').
Proof.
  apply (map_elementwise Z Z Z.succ (of_list [1; 2; 3]%Z) [1; 2; 3]%Z 4).
  - apply of_list_remaining.
  - simpl. lia.
Defined.





(** X3: [chain(other)] with an [other] that is not iterable raises nothing at
    the call: it yields every remaining element of [self] first, and only
    then raises the exception of [iter(other)]. *)
Theorem chain_not_iterable_fails_late (T : Type) (w : wrapper T)
  (l : list T) (other : pyobj T) (e : exn) (fuel : nat) :
  remaining w l -> builtins_iter other = Raise e -> e <> StopIteration ->
  length l < fuel ->
  exists c c1 c2 c3,
    iter.chain other w = Ok c
    /\ iter.take (Z.of_nat (length l)) c = (Ok l, c1)
    /\ iter.next c1 = (Raise e, c2)
    /\ iter.collect fuel c = Some (Raise e, c3).
Proof.
  destruct w as [[St nx s]]. intros (rem & P & E) Hi He Hf. simpl in *.
  unfold iter.chain. simpl. rewrite Hi.
  unfold iter.__init__, builtins_iter.
  set (cn := chain_next (St2 := unit) nx (inl e)).
  assert (Hother : forall ex : exn, ex = e -> ex <> StopIteration)
    by (intros ex ->; exact He).
  assert (Take : forall n s0, n <= length (rem s0) ->
            exists s1, take_loop cn n (CFirst, (s0, tt))
                       = (Ok (firstn n (rem s0)), (CFirst, (s1, tt)))
                       /\ rem s1 = skipn n (rem s0)).
  { induction n as [|n IH]; intros s0 Hn.
    - exists s0. split; reflexivity.
    - destruct (rem s0) as [|x r] eqn:E0; [simpl in Hn; lia|].
      destruct (producer_cons _ _ s0 _ _ P E0) as (s1 & H1 & R1).
      destruct (IH s1) as (s2 & H2 & R2); [rewrite R1; simpl in Hn; lia|].
      exists s2. split.
      + cbn [take_loop]. unfold bind at 1, in_generator.
        unfold cn at 1, chain_next. rewrite H1.
        unfold bind at 1. rewrite H2. rewrite R1. reflexivity.
      + rewrite R2, R1. reflexivity. }
  assert (Stop : forall s0, rem s0 = [] ->
            exists s1, cn (CFirst, (s0, tt)) = (Raise e, (CDone, (s1, tt)))).
  { intros s0 E0. destruct (producer_nil _ _ s0 P E0) as (s1 & H1 & _).
    exists s1. unfold cn, chain_next. rewrite H1. reflexivity. }
  assert (Loop : forall fuel0 acc s0, length (rem s0) < fuel0 ->
            exists st, for_each cn fuel0 (fun a el => a ++ [el]) acc
                         (CFirst, (s0, tt))
                       = Some (Raise (A := list T) e, st)).
  { induction fuel0 as [|fuel0 IH]; intros acc s0 Hlt; [lia|].
    destruct (rem s0) as [|x r] eqn:E0.
    - destruct (Stop s0 E0) as (s1 & H1).
      eexists. cbn [for_each]. rewrite H1.
      destruct e; try reflexivity. congruence.
    - destruct (producer_cons _ _ s0 _ _ P E0) as (s1 & H1 & R1).
      destruct (IH (acc ++ [x]) s1) as (st & H2);
        [rewrite R1; simpl in Hlt; lia|].
      exists st. cbn [for_each]. unfold cn at 1, chain_next. rewrite H1.
      exact H2. }
  destruct (Take (length l) s) as (s1 & H1 & R1); [rewrite E; lia|].
  rewrite E, firstn_all in H1. rewrite E, skipn_all in R1.
  destruct (Stop s1 R1) as (s2 & H2).
  destruct (Loop fuel [] s) as (st & H3); [rewrite E; exact Hf|].
  eexists _, _, _, _. split; [reflexivity|]. split; [|split].
  - unfold iter.take, on_it, run, times. cbn [it icur inext ist].
    rewrite Nat2Z.id, H1. reflexivity.
  - unfold iter.next, on_it, run. cbn [it icur inext ist].
    rewrite H2. reflexivity.
  - unfold iter.collect, on_it_opt, run_opt, list_loop. cbn [it icur inext ist].
    rewrite H3. reflexivity.
Qed.

Lemma chain_not_iterable_fails_late_witness :
  exists c c1 c2 c3,
    iter.chain (PyValue 7%Z) (of_list [1; 2]%Z) = Ok c
    /\ iter.take 2 c = (Ok [1; 2]%Z, c1)
    /\ iter.next c1 = (Raise TypeError, c2)
    /\ iter.collect 3 c = Some (Raise TypeError, c3).
Proof.
  apply (chain_not_iterable_fails_late Z (of_list [1; 2]%Z) [1; 2]%Z
           (PyValue 7%Z) TypeError 3).
  - apply of_list_remaining.
  - reflexivity.
  - discriminate.
  - simpl. lia.
Defined.

Section FilterLoops.
Context {St T : Type}.
Variable nx : M St T.
Variable rem : St -> list T.
Hypothesis Hprod : producer nx rem.
Variable pred : T -> bool.

(** One search of the filter object: the first remaining element that
    passes, or the end. *)
Lemma filter_next_producer (fuel : nat) :
  forall s, length (rem s) < fuel ->
  exists s',
    filter_next nx fuel pred s
    = Some (match filter pred (rem s) with
            | [] => Raise StopIteration
            | x :: _ => Ok x
            end, s')
    /\ filter pred (rem s') = tl (filter pred (rem s))
    /\ length (rem s') <= length (rem s)
    /\ (filter pred (rem s) <> [] -> length (rem s') < length (rem s)).
Proof.
  induction fuel as [|fuel IH]; intros s Hf; [lia|].
  destruct (rem s) as [|x r] eqn:E.
  - destruct (producer_nil _ _ s Hprod E) as (s1 & H1 & R1).
    exists s1. cbn [filter_next]. rewrite H1, R1. simpl.
    repeat split; auto. congruence.
  - destruct (producer_cons _ _ s _ _ Hprod E) as (s1 & H1 & R1).
    cbn [filter_next]. rewrite H1. simpl filter. simpl in Hf.
    destruct (pred x) eqn:Px.
    + exists s1. rewrite R1. simpl. repeat split; auto.
    + destruct (IH s1) as (s2 & H2 & F2 & L2 & N2); [rewrite R1; lia|].
      rewrite R1 in *. exists s2. simpl length.
      repeat split; auto. intros Hne. specialize (N2 Hne). lia.
Qed.

Lemma filter_list_producer (fuel : nat) :
  forall (acc : list T) s, length (rem s) < fuel ->
  exists s',
    filter_list nx fuel pred acc s
    = Some (Ok (acc ++ filter pred (rem s)), s').
Proof.
  induction fuel as [|fuel IH]; intros acc s Hf; [lia|].
  destruct (filter_next_producer (S fuel) s Hf) as (s1 & H1 & F1 & L1 & N1).
  cbn [filter_list]. rewrite H1.
  destruct (filter pred (rem s)) as [|x fs] eqn:Ef.
  - exists s1. now rewrite app_nil_r.
  - destruct (IH (acc ++ [x]) s1) as (s2 & H2).
    { assert (length (rem s1) < length (rem s)) by (apply N1; discriminate).
      lia. }
    exists s2. rewrite H2, F1, <- app_assoc. reflexivity.
Qed.

End FilterLoops.

(** X4: [filter(pred)] of a finite producer collects to the remaining elements
    that satisfy [pred], in order; with [pred = None] to those that are
    true. *)
Theorem filter_keeps_passing (T : Type) (truthy : T -> bool)
  (pred : option (T -> bool)) (w : wrapper T) (l : list T) (fuel : nat) :
  remaining w l -> length l < fuel ->
  exists f f',
    iter.filter truthy pred w = Ok f
    /\ iter.filtered_collect fuel f
       = Some (Ok (filter match pred with
                          | Some p => p
                          | None => truthy
                          end l), f').
Proof.
  destruct w as [[St nx s]]. intros (rem & P & E) Hf. simpl in *.
  destruct (filter_list_producer nx rem P
              match pred with Some p => p | None => truthy end fuel [] s)
    as (s' & H); [rewrite E; exact Hf|].
  eexists _, _. split; [reflexivity|].
  unfold iter.filtered_collect, on_it_opt, run_opt.
  cbn [iter.source iter.test it icur inext ist].
  rewrite H, E. reflexivity.
Qed.

Lemma filter_keeps_passing_witness :
  (exists f f',
      iter.filter (fun x => negb (x =? 0)%Z) (Some Z.even)
        (of_list [1; 2; 3; 4]%Z) = Ok f
      /\ iter.filtered_collect 5 f = Some (Ok [2; 4]%Z, f'))
  /\ (exists f f',
         iter.filter (fun x => negb (x =? 0)%Z) None
           (of_list [0; 5; 0; 7]%Z) = Ok f
         /\ iter.filtered_collect 5 f = Some (Ok [5; 7]%Z, f')).
Proof.
  split.
  - apply (filter_keeps_passing Z (fun x => negb (x =? 0)%Z) (Some Z.even)
             (of_list [1; 2; 3; 4]%Z) [1; 2; 3; 4]%Z 5).
    + apply of_list_remaining.
    + simpl. lia.
  - apply (filter_keeps_passing Z (fun x => negb (x =? 0)%Z) None
             (of_list [0; 5; 0; 7]%Z) [0; 5; 0; 7]%Z 5).
    + apply of_list_remaining.
    + simpl. lia.
Defined.



(** X6: [foreach(func)] calls [func] once on every remaining element, in
    order, and leaves the wrapper exhausted. *)
Theorem foreach_visits_all (T W : Type) (func : T -> W -> W) (world : W)
  (w : wrapper T) (l : list T) (fuel : nat) :
  remaining w l -> length l < fuel ->
  exists w',
    iter.foreach fuel func world w
    = Some (Ok (fold_left (fun wd el => func el wd) l world), w')
    /\ remaining w' [].
Proof.
  destruct w as [[St nx s]]. intros (rem & P & E) Hf. simpl in *.
  destruct (for_each_producer nx rem P (fun wd el => func el wd) fuel world s)
    as (s' & H & R); [rewrite E; exact Hf|].
  exists (Wrap (Iterator nx s')). split.
  - unfold iter.foreach, on_it_opt, run_opt. cbn [it icur inext ist].
    rewrite H, E. reflexivity.
  - eapply remaining_intro; eauto.
Qed.

Lemma foreach_visits_all_witness :
  exists w',
    iter.foreach 4 (fun el seen => seen ++ [el]) [] (of_list [1; 2; 3]%Z)
    = Some (Ok [1; 2; 3]%Z, w')
    /\ remaining w' [].
Proof.
  apply (foreach_visits_all Z (list Z) (fun el seen => seen ++ [el]) []
           (of_list [1; 2; 3]%Z) [1; 2; 3]%Z 4).
  - apply of_list_remaining.
  - simpl. lia.
Defined.

(** ** [skip], [nth], [take], [collect] on what is there *)

(** X7: [skip(n)] with at least [n] elements left discards exactly the first
    [n] and keeps the rest; a negative [n] discards nothing. *)
Theorem skip_discards_prefix (T : Type) (w : wrapper T) (l : list T)
  (n : Z) :
  remaining w l -> (n <= Z.of_nat (length l))%Z ->
  exists w',
    iter.skip n w = (Ok tt, w') /\ remaining w' (skipn (Z.to_nat n) l).
Proof.
  intros R Hn. apply skip_enough; assumption.
Qed.

Lemma skip_discards_prefix_witness :
  (exists w', iter.skip 2 (of_list [1; 2; 3]%Z) = (Ok tt, w')
              /\ remaining w' [3%Z])
  /\ (exists w', iter.skip (-4) (of_list [1; 2; 3]%Z) = (Ok tt, w')
                 /\ remaining w' [1; 2; 3]%Z).
Proof.
  split.
  - apply (skip_discards_prefix Z (of_list [1; 2; 3]%Z) [1; 2; 3]%Z 2).
    + apply of_list_remaining.
    + simpl. lia.
  - apply (skip_discards_prefix Z (of_list [1; 2; 3]%Z) [1; 2; 3]%Z (-4)).
    + apply of_list_remaining.
    + simpl. lia.
Defined.

Lemma nth_returns_index_aux (T : Type) (w : wrapper T) (l : list T) (n : Z)
  (x : T) :
  remaining w l -> nth_error l (Z.to_nat n) = Some x ->
  exists w',
    iter.nth n w = (Ok x, w')
    /\ remaining w' (skipn (S (Z.to_nat n)) l).
Proof.
  intros R Hx.
  assert (Hlt : Z.to_nat n < length l)
    by (apply nth_error_Some; congruence).
  destruct (skip_enough _ _ _ n R) as (w1 & H1 & R1); [lia|].
  unfold iter.nth. rewrite H1.
  destruct (skipn (Z.to_nat n) l) as [|y r] eqn:E.
  - apply (f_equal (@length T)) in E. rewrite length_skipn in E.
    simpl in E. lia.
  - destruct (next_cons _ _ _ _ R1) as (w2 & H2 & R2).
    assert (y = x).
    { rewrite <- (firstn_skipn (Z.to_nat n) l) in Hx.
      rewrite nth_error_app2 in Hx; rewrite length_firstn in *; [|lia].
      replace (Z.to_nat n - Nat.min (Z.to_nat n) (length l)) with 0 in Hx
        by lia.
      rewrite E in Hx. simpl in Hx. congruence. }
    subst y. exists w2. split; [exact H2|].
    replace (skipn (S (Z.to_nat n)) l) with r; [exact R2|].
    change (S (Z.to_nat n)) with (1 + Z.to_nat n).
    rewrite <- skipn_skipn, E. reflexivity.
Qed.


(** X8: [nth(n)] counts from 0: it returns the element at index [n] of what
    remains and consumes it together with the [n] before it. *)
Theorem nth_returns_index (T : Type) (w : wrapper T) (l : list T) (n : Z)
  (x : T) :
  remaining w l -> nth_error l (Z.to_nat n) = Some x ->
  exists w',
    iter.nth n w = (Ok x, w')
    /\ remaining w' (skipn (S (Z.to_nat n)) l).
Proof.
  intros R Hx. apply nth_returns_index_aux; assumption.
Qed.

Lemma nth_returns_index_witness :
  exists w',
    iter.nth 1 (of_list [10; 20; 30]%Z) = (Ok 20%Z, w')
    /\ remaining w' [30%Z].
Proof.
  apply (nth_returns_index Z (of_list [10; 20; 30]%Z) [10; 20; 30]%Z 1 20%Z).
  - apply of_list_remaining.
  - reflexivity.
Defined.

(** X9: [take(n)] with fewer than [n] elements left raises [RuntimeError], not
    [StopIteration]: the [StopIteration] of [self.next()] is raised inside
    the generator expression [tuple] consumes.  The wrapper is left
    exhausted. *)
Theorem take_underflow_is_runtime_error (T : Type) (w : wrapper T)
  (l : list T) (n : Z) :
  remaining w l -> (Z.of_nat (length l) < n)%Z ->
  exists w', iter.take n w = (Raise RuntimeError, w') /\ remaining w' [].
Proof.
  intros R Hn. apply (take_short _ _ l); assumption.
Qed.

Lemma take_underflow_is_runtime_error_witness :
  exists w',
    iter.take 2 (of_list [1%Z]) = (Raise RuntimeError, w')
    /\ remaining w' [].
Proof.
  apply (take_underflow_is_runtime_error Z (of_list [1%Z]) [1%Z] 2).
  - apply of_list_remaining.
  - simpl. lia.
Defined.

(** X10: A wrapper is single-pass: [collect] returns everything that remains,
    and a second [collect] returns the empty list. *)
Theorem collect_is_single_pass (T : Type) (w : wrapper T) (l : list T)
  (fuel : nat) :
  remaining w l -> length l < fuel ->
  exists w' w'',
    iter.collect fuel w = Some (Ok l, w')
    /\ iter.collect fuel w' = Some (Ok [], w'').
Proof.
  intros R Hf.
  destruct (collect_remaining _ _ l fuel R Hf) as (w' & H & R').
  destruct (collect_remaining _ _ [] fuel R') as (w'' & H' & _);
    [simpl; lia|].
  eauto.
Qed.

Lemma collect_is_single_pass_witness :
  exists w' w'',
    iter.collect 4 (of_list [1; 2; 3]%Z) = Some (Ok [1; 2; 3]%Z, w')
    /\ iter.collect 4 w' = Some (Ok [], w'').
Proof.
  apply (collect_is_single_pass Z (of_list [1; 2; 3]%Z) [1; 2; 3]%Z 4).
  - apply of_list_remaining.
  - simpl. lia.
Defined.

(** ** [min] and [max] *)

Section FirstLeast.
Context {T K : Type}.
Variable lt : K -> K -> bool.
Variable key : T -> K.
Hypothesis lt_asym : forall a b, lt a b = true -> lt b a = false.
Hypothesis ge_trans :
  forall a b c, lt a b = false -> lt b c = false -> lt a c = false.

(** Folding "keep the smaller, the earlier on a tie" leaves the first of
    the least elements: everything before it is strictly greater and
    nothing after it is smaller. *)
Lemma fold_first_least (l : list T) :
  forall best,
    exists l1 l2,
      best :: l
      = l1 ++ fold_left (fun b x => if lt (key x) (key b) then x else b)
                l best :: l2
      /\ (forall y, In y l1 ->
            lt (key (fold_left
                       (fun b x => if lt (key x) (key b) then x else b)
                       l best)) (key y) = true)
      /\ (forall y, In y l2 ->
            lt (key y)
              (key (fold_left
                      (fun b x => if lt (key x) (key b) then x else b)
                      l best)) = false).
Proof.
  induction l as [|x r IH]; intros best.
  - exists [], []. simpl. repeat split; intros y [].
  - cbn [fold_left].
    destruct (lt (key x) (key best)) eqn:Hx.
    + destruct (IH x) as (l1 & l2 & Hsplit & P1 & P2).
      set (m := fold_left _ r x) in *.
      exists (best :: l1), l2. split; [simpl; now rewrite Hsplit|].
      split; [|exact P2].
      intros y [<-|Hy]; [|apply P1; exact Hy].
      destruct l1 as [|x' l1'].
      * simpl in Hsplit. injection Hsplit as Hm _. rewrite <- Hm. exact Hx.
      * simpl in Hsplit. injection Hsplit as Hx' _. subst x'.
        specialize (P1 x (or_introl eq_refl)).
        destruct (lt (key m) (key best)) eqn:Hm; [reflexivity|].
        rewrite (ge_trans _ _ _ Hm (lt_asym _ _ Hx)) in P1. discriminate.
    + destruct (IH best) as (l1 & l2 & Hsplit & P1 & P2).
      set (m := fold_left _ r best) in *.
      destruct l1 as [|b0 l1'].
      * simpl in Hsplit. injection Hsplit as Hm Hr.
        exists [], (x :: r). split; [simpl; now rewrite <- Hm|].
        split; [intros y []|].
        intros y [<-|Hy].
        -- rewrite <- Hm. exact Hx.
        -- apply P2. rewrite <- Hr. exact Hy.
      * simpl in Hsplit. injection Hsplit as Hb Hr. subst b0.
        exists (best :: x :: l1'), l2. split; [simpl; now rewrite Hr|].
        split; [|exact P2].
        intros y [<-|[<-|Hy]].
        -- apply P1. now left.
        -- pose proof (P1 best (or_introl eq_refl)) as Hb.
           destruct (lt (key m) (key x)) eqn:Hm; [reflexivity|].
           rewrite (ge_trans _ _ _ Hm Hx) in Hb. discriminate.
        -- apply P1. now right.
Qed.

End FirstLeast.

(** X11: [min(key)] on a wrapper that is not exhausted returns the first of the
    remaining elements whose key is least: every element before it has a
    strictly greater key and no element after it has a smaller one.  The
    wrapper is left exhausted.  [lt] is [<] on keys, taken to order them
    as a strict weak order. *)
Theorem min_returns_first_least (T K : Type) (lt : K -> K -> bool)
  (key : T -> K) (w : wrapper T) (x : T) (r : list T) (fuel : nat) :
  (forall a b, lt a b = true -> lt b a = false) ->
  (forall a b c, lt a b = false -> lt b c = false -> lt a c = false) ->
  remaining w (x :: r) -> length r < fuel ->
  exists w' m l1 l2,
    iter.min lt key fuel w = Some (Ok m, w')
    /\ remaining w' []
    /\ x :: r = l1 ++ m :: l2
    /\ (forall y, In y l1 -> lt (key m) (key y) = true)
    /\ (forall y, In y l2 -> lt (key y) (key m) = false).
Proof.
  intros Hasym Htrans. destruct w as [[St nx s]].
  intros (rem & P & E) Hf. simpl in *.
  destruct (producer_cons _ _ s _ _ P E) as (s1 & H1 & R1).
  destruct (for_each_producer nx rem P
              (fun b y => if lt (key y) (key b) then y else b) fuel x s1)
    as (s' & H & R); [rewrite R1; exact Hf|].
  rewrite R1 in H.
  destruct (fold_first_least lt key Hasym Htrans r x)
    as (l1 & l2 & Hsplit & P1 & P2).
  eexists (Wrap (Iterator nx s')), _, l1, l2.
  split; [|split; [|split; [exact Hsplit|split; [exact P1|exact P2]]]].
  - unfold iter.min, on_it_opt, run_opt, fold_from_first.
    cbn [it icur inext ist]. rewrite H1, H. reflexivity.
  - eapply remaining_intro; eauto.
Qed.

Lemma min_returns_first_least_witness :
  exists w' m l1 l2,
    iter.min Z.ltb Z.abs 4 (of_list [3; -1; 1]%Z) = Some (Ok m, w')
    /\ remaining w' []
    /\ [3; -1; 1]%Z = l1 ++ m :: l2
    /\ (forall y, In y l1 -> (Z.abs m <? Z.abs y)%Z = true)
    /\ (forall y, In y l2 -> (Z.abs y <? Z.abs m)%Z = false).
Proof.
  apply (min_returns_first_least Z Z Z.ltb Z.abs (of_list [3; -1; 1]%Z)
           3%Z [-1; 1]%Z 4).
  - intros a b. rewrite Z.ltb_lt, Z.ltb_ge. lia.
  - intros a b c. rewrite !Z.ltb_ge. lia.
  - apply of_list_remaining.
  - simpl. lia.
Defined.

(** X12: [max(key)] on a wrapper that is not exhausted returns the first of the
    remaining elements whose key is greatest, and leaves the wrapper
    exhausted. *)
Theorem max_returns_first_greatest (T K : Type) (lt : K -> K -> bool)
  (key : T -> K) (w : wrapper T) (x : T) (r : list T) (fuel : nat) :
  (forall a b, lt a b = true -> lt b a = false) ->
  (forall a b c, lt a b = false -> lt b c = false -> lt a c = false) ->
  remaining w (x :: r) -> length r < fuel ->
  exists w' m l1 l2,
    iter.max lt key fuel w = Some (Ok m, w')
    /\ remaining w' []
    /\ x :: r = l1 ++ m :: l2
    /\ (forall y, In y l1 -> lt (key y) (key m) = true)
    /\ (forall y, In y l2 -> lt (key m) (key y) = false).
Proof.
  intros Hasym Htrans. destruct w as [[St nx s]].
  intros (rem & P & E) Hf. simpl in *.
  destruct (producer_cons _ _ s _ _ P E) as (s1 & H1 & R1).
  destruct (for_each_producer nx rem P
              (fun b y => if lt (key b) (key y) then y else b) fuel x s1)
    as (s' & H & R); [rewrite R1; exact Hf|].
  rewrite R1 in H.
  destruct (fold_first_least (fun a b => lt b a) key
              (fun a b => Hasym b a) (fun a b c Hab Hbc => Htrans c b a Hbc Hab)
              r x)
    as (l1 & l2 & Hsplit & P1 & P2).
  eexists (Wrap (Iterator nx s')), _, l1, l2.
  split; [|split; [|split; [exact Hsplit|split; [exact P1|exact P2]]]].
  - unfold iter.max, on_it_opt, run_opt, fold_from_first.
    cbn [it icur inext ist]. rewrite H1, H. reflexivity.
  - eapply remaining_intro; eauto.
Qed.

Lemma max_returns_first_greatest_witness :
  exists w' m l1 l2,
    iter.max Z.ltb Z.abs 4 (of_list [1; -3; 3]%Z) = Some (Ok m, w')
    /\ remaining w' []
    /\ [1; -3; 3]%Z = l1 ++ m :: l2
    /\ (forall y, In y l1 -> (Z.abs y <? Z.abs m)%Z = true)
    /\ (forall y, In y l2 -> (Z.abs m <? Z.abs y)%Z = false).
Proof.
  apply (max_returns_first_greatest Z Z Z.ltb Z.abs (of_list [1; -3; 3]%Z)
           1%Z [-3; 3]%Z 4).
  - intros a b. rewrite Z.ltb_lt, Z.ltb_ge. lia.
  - intros a b c. rewrite !Z.ltb_ge. lia.
  - apply of_list_remaining.
  - simpl. lia.
Defined.

(** ** [sorted] *)

Section SortList.
Context {T K : Type}.
Variable lt : K -> K -> bool.
Variable key : T -> K.
Hypothesis lt_asym : forall a b, lt a b = true -> lt b a = false.

Lemma insert_sorted_perm (x : T) (l : list T) :
  Permutation (x :: l) (insert_sorted lt key x l).
Proof.
  induction l as [|y r IH]; simpl; [reflexivity|].
  destruct (lt (key x) (key y)); [reflexivity|].
  rewrite perm_swap. constructor. exact IH.
Qed.

Lemma insert_sorted_hd (x y : T) (l : list T) :
  lt (key x) (key y) = false ->
  HdRel (fun a b => lt (key b) (key a) = false) y l ->
  HdRel (fun a b => lt (key b) (key a) = false) y (insert_sorted lt key x l).
Proof.
  intros Hxy Hhd. destruct l as [|z r]; simpl.
  - constructor. exact Hxy.
  - destruct (lt (key x) (key z)).
    + constructor. exact Hxy.
    + constructor. inversion Hhd. assumption.
Qed.

Lemma insert_sorted_sorted (x : T) (l : list T) :
  Sorted (fun a b => lt (key b) (key a) = false) l ->
  Sorted (fun a b => lt (key b) (key a) = false) (insert_sorted lt key x l).
Proof.
  induction 1 as [|y r Hs IH Hhd]; simpl.
  - repeat constructor.
  - destruct (lt (key x) (key y)) eqn:Hxy.
    + constructor; [constructor; assumption|].
      constructor. apply lt_asym. exact Hxy.
    + constructor; [exact IH|]. apply insert_sorted_hd; assumption.
Qed.

Lemma sort_list_spec (l : list T) :
  forall acc,
    Sorted (fun a b => lt (key b) (key a) = false) acc ->
    Sorted (fun a b => lt (key b) (key a) = false)
      (fold_left (fun acc x => insert_sorted lt key x acc) l acc)
    /\ Permutation (l ++ acc)
         (fold_left (fun acc x => insert_sorted lt key x acc) l acc).
Proof.
  induction l as [|x r IH]; intros acc Hs; simpl.
  - split; [exact Hs | reflexivity].
  - destruct (IH (insert_sorted lt key x acc)) as (S1 & P1).
    { apply insert_sorted_sorted. exact Hs. }
    split; [exact S1|].
    rewrite <- P1. rewrite <- insert_sorted_perm.
    apply Permutation_middle.
Qed.

End SortList.

(** X13: [sorted(key, reverse)] drains the wrapper and returns a wrapper over a
    rearrangement of the elements that were left, ascending by key: no
    element's key is smaller than that of the element before it.  With
    [reverse] the order is the opposite: read backwards, the result is
    ascending. *)
Theorem sorted_is_ordered_rearrangement (T K : Type) (lt : K -> K -> bool)
  (key : T -> K) (reverse : bool) (w : wrapper T) (l : list T)
  (fuel : nat) :
  (forall a b, lt a b = true -> lt b a = false) ->
  remaining w l -> length l < fuel ->
  exists sw w' sl,
    iter.sorted lt key reverse fuel w = Some (Ok sw, w')
    /\ remaining w' []
    /\ remaining sw sl
    /\ Permutation l sl
    /\ Sorted (fun a b => lt (key b) (key a) = false)
         (if reverse then rev sl else sl).
Proof.
  intros Hasym R Hf.
  destruct (collect_remaining _ _ l fuel R Hf) as (w' & H & R').
  exists (of_list (builtins_sorted lt key reverse l)), w',
    (builtins_sorted lt key reverse l).
  split; [unfold iter.sorted; rewrite H; reflexivity|].
  split; [exact R'|]. split; [apply of_list_remaining|].
  unfold builtins_sorted, sort_list. destruct reverse.
  - destruct (sort_list_spec lt key Hasym (rev l) [] (Sorted_nil _))
      as (S1 & P1).
    rewrite app_nil_r in P1. split.
    + rewrite <- Permutation_rev, <- P1. apply Permutation_rev.
    + rewrite rev_involutive. exact S1.
  - destruct (sort_list_spec lt key Hasym l [] (Sorted_nil _)) as (S1 & P1).
    rewrite app_nil_r in P1. split; assumption.
Qed.

Lemma sorted_is_ordered_rearrangement_witness :
  exists sw w' sl,
    iter.sorted Z.ltb (fun x => x) true 4 (of_list [2; 3; 1]%Z)
    = Some (Ok sw, w')
    /\ remaining w' []
    /\ remaining sw sl
    /\ Permutation [2; 3; 1]%Z sl
    /\ Sorted (fun a b => (b <? a)%Z = false) (rev sl).
Proof.
  apply (sorted_is_ordered_rearrangement Z Z Z.ltb (fun x => x) true
           (of_list [2; 3; 1]%Z) [2; 3; 1]%Z 4).
  - intros a b. rewrite Z.ltb_lt, Z.ltb_ge. lia.
  - apply of_list_remaining.
  - simpl. lia.
Defined.

(** ** How [chunk], [chunk_default] and [window] relate *)

Lemma app_same_length_inj {T : Type} (g h x y : list T) :
  length g = length h -> g ++ x = h ++ y -> g = h /\ x = y.
Proof.
  revert h. induction g as [|a g IH]; intros [|b h] Hl He;
    try discriminate Hl.
  - auto.
  - simpl in *. injection He as -> He. injection Hl as Hl.
    destruct (IH h Hl He) as (-> & ->). auto.
Qed.

(** Groups of one fixed positive size are determined by what they
    concatenate to. *)
Lemma concat_fixed_size_inj {T : Type} (k : nat) (a : list (list T)) :
  0 < k ->
  forall b,
    Forall (fun g => length g = k) a -> Forall (fun g => length g = k) b ->
    concat a = concat b -> a = b.
Proof.
  intros Hk. induction a as [|g a IH]; intros [|h b] Fa Fb Hc.
  - reflexivity.
  - inversion Fb as [|? ? Hh _]. simpl in Hc.
    destruct h; [simpl in Hh; lia | discriminate Hc].
  - inversion Fa as [|? ? Hg _]. simpl in Hc.
    destruct g; [simpl in Hg; lia | discriminate Hc].
  - inversion Fa as [|? ? Hg Fa']. inversion Fb as [|? ? Hh Fb'].
    simpl in Hc.
    destruct (app_same_length_inj g h _ _ ltac:(congruence) Hc) as (-> & Hc').
    f_equal. apply IH; assumption.
Qed.

(** X15: When the size divides the number of remaining elements there is
    nothing to drop and nothing to pad: [chunk] and [chunk_default] yield
    the same groups, which concatenate to all the elements. *)
Theorem chunk_default_agrees_when_divisible (T : Type) (w : wrapper T)
  (l : list T) (n : Z) (default : T) (fuel : nat) :
  remaining w l -> (1 <= n)%Z -> length l mod Z.to_nat n = 0 ->
  length l < fuel ->
  exists c1 c2 gs c1' c2',
    iter.chunk n w = Ok c1
    /\ iter.chunk_default n default w = Ok c2
    /\ iter.collect fuel c1 = Some (Ok gs, c1')
    /\ iter.collect fuel c2 = Some (Ok gs, c2')
    /\ concat gs = l.
Proof.
  destruct w as [[St nx s]]. intros (rem & P & E) Hn Hmod Hf. simpl in *.
  assert (Hk : 0 < Z.to_nat n) by lia.
  set (k := Z.to_nat n) in *.
  assert (Hdiv : k * (length l / k) = length l).
  { pose proof (Nat.div_mod_eq (length l) k). lia. }
  assert (Hle : length l / k <= length l).
  { apply Nat.Div0.div_le_upper_bound. nia. }
  destruct (zip_rows nx rem P k Hk fuel [] s)
    as (gs1 & s1 & H1 & L1 & F1 & C1); [rewrite E; lia|].
  destruct (zip_longest_rows nx rem P default k Hk fuel [] s)
    as (gs2 & [st2 s2] & H2 & L2 & F2 & C2); [rewrite E; exact Hf|].
  rewrite E in *.
  assert (C1' : concat gs1 = l) by (rewrite C1, Hdiv; apply firstn_all).
  assert (L2' : length gs2 = length l / k).
  { rewrite L2. replace (length l + k - 1) with (length l / k * k + (k - 1))
      by lia.
    rewrite Nat.div_add_l by lia. rewrite (Nat.div_small (k - 1)) by lia.
    lia. }
  assert (C2' : concat gs2 = l).
  { rewrite C2, L2', Hdiv, Nat.sub_diag. simpl. apply app_nil_r. }
  assert (gs2 = gs1).
  { apply (concat_fixed_size_inj k gs2 Hk gs1 F2 F1). congruence. }
  subst gs2.
  eexists _, _, gs1, _, _. split; [reflexivity|]. split; [reflexivity|].
  split; [|split; [|exact C1']].
  - unfold iter.collect, on_it_opt, run_opt, list_loop, times.
    cbn [it icur inext ist]. fold k. rewrite H1. reflexivity.
  - unfold iter.collect, on_it_opt, run_opt, list_loop, times.
    cbn [it icur inext ist]. fold k. rewrite H2. reflexivity.
Qed.

Lemma chunk_default_agrees_when_divisible_witness :
  exists c1 c2 gs c1' c2',
    iter.chunk 2 (of_list [1; 2; 3; 4]%Z) = Ok c1
    /\ iter.chunk_default 2 0%Z (of_list [1; 2; 3; 4]%Z) = Ok c2
    /\ iter.collect 5 c1 = Some (Ok gs, c1')
    /\ iter.collect 5 c2 = Some (Ok gs, c2')
    /\ concat gs = [1; 2; 3; 4]%Z.
Proof.
  apply (chunk_default_agrees_when_divisible Z (of_list [1; 2; 3; 4]%Z)
           [1; 2; 3; 4]%Z 2 0%Z 5).
  - apply of_list_remaining.
  - lia.
  - reflexivity.
  - simpl. lia.
Defined.

Lemma singleton_slices {T : Type} (l : list T) :
  map (fun i => firstn 1 (skipn i l)) (seq 0 (length l))
  = map (fun x => [x]) l.
Proof.
  induction l as [|x l IH]; [reflexivity|].
  cbn [length]. change (seq 0 (S (length l))) with (0 :: seq 1 (length l)).
  cbn [map]. f_equal. rewrite <- seq_shift, map_map. exact IH.
Qed.

(** X16: With size 1, [chunk], [chunk_default] and [window] all yield the same:
    each remaining element as a group of one. *)
Theorem size_one_groups_are_singletons (T : Type) (w : wrapper T)
  (l : list T) (default : T) (fuel : nat) :
  remaining w l -> length l < fuel ->
  exists c1 c2 c3 c1' c2' c3',
    iter.chunk 1 w = Ok c1
    /\ iter.chunk_default 1 default w = Ok c2
    /\ iter.window 1 w = Ok c3
    /\ iter.collect fuel c1 = Some (Ok (map (fun x => [x]) l), c1')
    /\ iter.collect fuel c2 = Some (Ok (map (fun x => [x]) l), c2')
    /\ iter.collect fuel c3 = Some (Ok (map (fun x => [x]) l), c3').
Proof.
  destruct w as [[St nx s]]. intros (rem & P & E) Hf. simpl in *.
  assert (Hsingle : forall gs : list (list T),
            Forall (fun g => length g = 1) gs -> concat gs = l ->
            gs = map (fun x => [x]) l).
  { intros gs F C.
    apply (concat_fixed_size_inj 1 gs Nat.lt_0_1); [exact F| |].
    - apply Forall_forall. intros g Hg. apply in_map_iff in Hg.
      destruct Hg as (x & <- & _). reflexivity.
    - rewrite C. clear. induction l as [|x l IH]; [reflexivity|].
      simpl. now rewrite <- IH. }
  destruct (zip_rows nx rem P 1 Nat.lt_0_1 fuel [] s)
    as (gs1 & s1 & H1 & L1 & F1 & C1);
    [rewrite E, Nat.div_1_r; exact Hf|].
  destruct (zip_longest_rows nx rem P default 1 Nat.lt_0_1 fuel [] s)
    as (gs2 & [st2 s2] & H2 & L2 & F2 & C2); [rewrite E; exact Hf|].
  destruct (window_rows nx rem P 1 ltac:(lia) fuel s)
    as (g3 & s3 & H3 & _); [rewrite E; exact Hf|].
  rewrite E in *. rewrite Nat.div_1_r, Nat.mul_1_l, firstn_all in C1.
  rewrite L2 in C2.
  replace (1 * ((length l + 1 - 1) / 1) - length l) with 0 in C2
    by (rewrite Nat.div_1_r; lia).
  simpl in C2. rewrite app_nil_r in C2.
  rewrite (Hsingle gs1 F1 C1) in H1. rewrite (Hsingle gs2 F2 C2) in H2.
  assert (H3' : list_loop (window_next nx 1) fuel (WStart, s)
                = Some (Ok (map (fun x => [x]) l), (g3, s3))).
  { rewrite H3. change (Z.to_nat 1) with 1.
    destruct l as [|x l']; [reflexivity|].
    destruct (Nat.leb_spec 1 (length (x :: l'))); [|simpl in *; lia].
    replace (length (x :: l') - 1 + 1) with (length (x :: l'))
      by (simpl; lia).
    rewrite singleton_slices. reflexivity. }
  eexists _, _, _, _, _, _.
  split; [reflexivity|]. split; [reflexivity|]. split; [reflexivity|].
  split; [|split].
  - unfold iter.collect, on_it_opt, run_opt, list_loop, times.
    cbn [it icur inext ist]. change (Z.to_nat 1) with 1.
    rewrite H1. reflexivity.
  - unfold iter.collect, on_it_opt, run_opt, list_loop, times.
    cbn [it icur inext ist]. change (Z.to_nat 1) with 1.
    rewrite H2. reflexivity.
  - unfold iter.collect, on_it_opt, run_opt, iter._window.
    cbn [it icur inext ist]. rewrite H3'. reflexivity.
Qed.

Lemma size_one_groups_are_singletons_witness :
  exists c1 c2 c3 c1' c2' c3',
    iter.chunk 1 (of_list [7; 8]%Z) = Ok c1
    /\ iter.chunk_default 1 0%Z (of_list [7; 8]%Z) = Ok c2
    /\ iter.window 1 (of_list [7; 8]%Z) = Ok c3
    /\ iter.collect 3 c1 = Some (Ok [[7]; [8]]%Z, c1')
    /\ iter.collect 3 c2 = Some (Ok [[7]; [8]]%Z, c2')
    /\ iter.collect 3 c3 = Some (Ok [[7]; [8]]%Z, c3').
Proof.
  apply (size_one_groups_are_singletons Z (of_list [7; 8]%Z) [7; 8]%Z 0%Z 3).
  - apply of_list_remaining.
  - simpl. lia.
Defined.

(** X17: [window] with a size that is not positive raises nothing at the
    call.  Collecting the wrapper it returns gives one empty group when the
    producer is exhausted, and raises [IndexError] when the producer has an
    element: after the empty group the generator pops its empty deque. *)
Theorem window_nonpositive_then_index_error (T : Type) (w : wrapper T)
  (l : list T) (n : Z) (fuel : nat) :
  remaining w l -> (n <= 0)%Z -> length l < fuel ->
  exists v v',
    iter.window n w = Ok v
    /\ iter.collect (S fuel) v
       = Some (match l with
               | [] => Ok [[]]
               | _ :: _ => Raise IndexError
               end, v').
Proof.
  destruct w as [[St nx s]]. intros (rem & P & E) Hn Hf. simpl in *.
  assert (Ht : times n = 0) by (unfold times; lia).
  destruct fuel as [|fuel]; [lia|].
  assert (Hloop : exists r s',
            nx s = (r, s')
            /\ list_loop (window_next nx n) (S (S fuel)) (WStart, s)
               = Some (match l with
                       | [] => Ok [[]]
                       | _ :: _ => Raise IndexError
                       end, (WDone, s'))).
  { unfold list_loop. cbn [for_each window_next]. rewrite Ht.
    cbn [next_n ret]. cbn [for_each window_next].
    destruct l as [|x r].
    - destruct (producer_nil _ _ s P E) as (s' & H & _).
      exists (Raise StopIteration), s'. rewrite H. auto.
    - destruct (producer_cons _ _ s _ _ P E) as (s' & H & _).
      exists (Ok x), s'. rewrite H. auto. }
  destruct Hloop as (r & s' & _ & H).
  eexists _, _. split; [reflexivity|].
  unfold iter.collect, on_it_opt, run_opt, iter._window.
  cbn [it icur inext ist iter.__init__ builtins_iter].
  rewrite H. reflexivity.
Qed.

Lemma window_nonpositive_then_index_error_witness :
  (exists v v',
      iter.window 0 (of_list [1; 2]%Z) = Ok v
      /\ iter.collect 4 v = Some (Raise IndexError, v'))
  /\ (exists v v',
         iter.window 0 (of_list (@nil Z)) = Ok v
         /\ iter.collect 2 v = Some (Ok [[]], v')).
Proof.
  split.
  - apply (window_nonpositive_then_index_error Z (of_list [1; 2]%Z)
             [1; 2]%Z 0 3).
    + apply of_list_remaining.
    + lia.
    + simpl. lia.
  - apply (window_nonpositive_then_index_error Z (of_list (@nil Z)) [] 0 1).
    + apply of_list_remaining.
    + lia.
    + simpl. lia.
Defined.

(** ** [extract_ints] *)




















(** The scenario of the specification, evaluated. *)
Example extract_ints_scenario :
  extract_ints (String.list_ascii_of_string "a=3, b=-7, c=+12"%string)
  = Ok [3; -7; 12]%Z.
Proof. reflexivity. Qed.

Section SortStable.
Context {T K : Type}.
Variable lt : K -> K -> bool.
Variable key : T -> K.
Hypothesis lt_asym : forall a b, lt a b = true -> lt b a = false.
Hypothesis ge_trans :
  forall a b c, lt a b = false -> lt b c = false -> lt a c = false.
Variable k0 : K.

Lemma lt_irrefl (a : K) : lt a a = false.
Proof.
  destruct (lt a a) eqn:H; [|reflexivity].
  rewrite (lt_asym _ _ H) in H. discriminate.
Qed.

(** Inserting into a sorted list puts the new element behind every element
    whose key is neither smaller nor greater. *)
Lemma insert_sorted_stable (x : T) (l : list T) :
  Sorted (fun a b => lt (key b) (key a) = false) l ->
  filter (fun y => negb (lt (key y) k0) && negb (lt k0 (key y)))
    (insert_sorted lt key x l)
  = filter (fun y => negb (lt (key y) k0) && negb (lt k0 (key y))) l
    ++ filter (fun y => negb (lt (key y) k0) && negb (lt k0 (key y))) [x].
Proof.
  intros Hs.
  assert (Hss : StronglySorted (fun a b => lt (key b) (key a) = false) l).
  { apply Sorted_StronglySorted; [|exact Hs].
    intros a b c Hab Hbc. exact (ge_trans _ _ _ Hbc Hab). }
  clear Hs. induction Hss as [|y r Hr IH Hall].
  - reflexivity.
  - cbn [insert_sorted]. destruct (lt (key x) (key y)) eqn:Hxy.
    + change (x :: y :: r) with ([x] ++ y :: r). rewrite filter_app.
      destruct (negb (lt (key x) k0) && negb (lt k0 (key x))) eqn:Hx.
      2:{ cbn [filter]. rewrite Hx. now rewrite app_nil_r. }
      apply andb_prop in Hx. destruct Hx as (Hx1 & Hx2).
      apply negb_true_iff in Hx1, Hx2.
      assert (Hnone : forall z, In z (y :: r) ->
                negb (lt (key z) k0) && negb (lt k0 (key z)) = false).
      { intros z Hz.
        assert (Hzy : lt (key z) (key y) = false).
        { destruct Hz as [<-|Hz]; [apply lt_irrefl|].
          rewrite Forall_forall in Hall. apply Hall. exact Hz. }
        destruct (lt (key z) k0) eqn:Hz1; [reflexivity|].
        destruct (lt k0 (key z)) eqn:Hz2; [reflexivity|].
        pose proof (ge_trans _ _ _ Hx1 Hz2) as Hxz.
        rewrite (ge_trans _ _ _ Hxz Hzy) in Hxy. discriminate. }
      assert (Hempty :
        filter (fun y => negb (lt (key y) k0) && negb (lt k0 (key y)))
          (y :: r) = []).
      { clear -Hnone. induction (y :: r) as [|z l IH]; [reflexivity|].
        simpl. rewrite (Hnone z (or_introl eq_refl)).
        apply IH. intros z' Hz'. apply Hnone. now right. }
      rewrite Hempty. now rewrite app_nil_r.
    + cbn [filter]. rewrite IH.
      destruct (negb (lt (key y) k0) && negb (lt k0 (key y))); reflexivity.
Qed.

Lemma sort_list_stable (l : list T) :
  forall acc,
    Sorted (fun a b => lt (key b) (key a) = false) acc ->
    filter (fun y => negb (lt (key y) k0) && negb (lt k0 (key y)))
      (fold_left (fun acc x => insert_sorted lt key x acc) l acc)
    = filter (fun y => negb (lt (key y) k0) && negb (lt k0 (key y))) acc
      ++ filter (fun y => negb (lt (key y) k0) && negb (lt k0 (key y))) l.
Proof.
  induction l as [|x r IH]; intros acc Hs.
  - simpl. now rewrite app_nil_r.
  - cbn [fold_left]. rewrite IH by (apply insert_sorted_sorted; assumption).
    rewrite insert_sorted_stable by exact Hs.
    rewrite <- app_assoc. change (x :: r) with ([x] ++ r).
    rewrite (filter_app _ [x] r). reflexivity.
Qed.

End SortStable.

(** X14: [sorted] is stable, with and without [reverse]: the elements whose key
    is neither smaller nor greater than a given key come out in the order
    they had in the wrapper. *)
Theorem sorted_is_stable (T K : Type) (lt : K -> K -> bool) (key : T -> K)
  (reverse : bool) (w : wrapper T) (l : list T) (fuel : nat) :
  (forall a b, lt a b = true -> lt b a = false) ->
  (forall a b c, lt a b = false -> lt b c = false -> lt a c = false) ->
  remaining w l -> length l < fuel ->
  exists sw w' sl,
    iter.sorted lt key reverse fuel w = Some (Ok sw, w')
    /\ remaining sw sl
    /\ forall k0,
         filter (fun y => negb (lt (key y) k0) && negb (lt k0 (key y))) sl
         = filter (fun y => negb (lt (key y) k0) && negb (lt k0 (key y))) l.
Proof.
  intros Hasym Htrans R Hf.
  destruct (collect_remaining _ _ l fuel R Hf) as (w' & H & R').
  exists (of_list (builtins_sorted lt key reverse l)), w',
    (builtins_sorted lt key reverse l).
  split; [unfold iter.sorted; rewrite H; reflexivity|].
  split; [apply of_list_remaining|].
  intros k0. unfold builtins_sorted, sort_list. destruct reverse.
  - rewrite filter_rev.
    rewrite (sort_list_stable lt key Hasym Htrans k0 (rev l) []
               (Sorted_nil _)).
    cbn [filter app]. rewrite filter_rev. apply rev_involutive.
  - rewrite (sort_list_stable lt key Hasym Htrans k0 l [] (Sorted_nil _)).
    reflexivity.
Qed.

Lemma sorted_is_stable_witness :
  exists sw w' sl,
    iter.sorted Z.ltb Z.abs true 5 (of_list [1; -2; -1; 2]%Z)
    = Some (Ok sw, w')
    /\ remaining sw sl
    /\ forall k0,
         filter (fun y => negb (Z.abs y <? k0)%Z && negb (k0 <? Z.abs y)%Z)
           sl
         = filter (fun y => negb (Z.abs y <? k0)%Z && negb (k0 <? Z.abs y)%Z)
             [1; -2; -1; 2]%Z.
Proof.
  apply (sorted_is_stable Z Z Z.ltb Z.abs true (of_list [1; -2; -1; 2]%Z)
           [1; -2; -1; 2]%Z 5).
  - intros a b. rewrite Z.ltb_lt, Z.ltb_ge. lia.
  - intros a b c. rewrite !Z.ltb_ge. lia.
  - apply of_list_remaining.
  - simpl. lia.
Defined.

(** The same, evaluated: sorted by absolute value, descending, -2 stays
    before 2 and 1 before -1. *)
Example sorted_stable_scenario :
  iter.sorted Z.ltb Z.abs true 5 (of_list [1; -2; -1; 2]%Z)
  = Some (Ok (of_list [-2; 2; 1; -1]%Z), of_list []).
Proof. reflexivity. Qed.

(** ** [range] *)

Lemma range_length_unit (start stop : Z) :
  range_length start stop 1 = Z.to_nat (stop - start).
Proof.
  unfold range_length. cbn [Z.ltb Z.compare].
  destruct (Z.ltb_spec start stop).
  - rewrite Z.div_1_r. lia.
  - lia.
Qed.

(** X25: [range(start, stop)] is a wrapper over [start], [start + 1], ... up to
    but not including [stop], and over nothing when [stop <= start]; its
    [nth(k)] is [start + k] for every [k] from 0 that stays below [stop];
    a step of 0 is refused with [ValueError] at the call. *)
Theorem range_counts_up (start stop : Z) :
  (exists w,
      range [start; stop] = Ok w
      /\ remaining w (map (fun i => (start + Z.of_nat i)%Z)
                        (seq 0 (Z.to_nat (stop - start))))
      /\ forall k, (0 <= k < stop - start)%Z ->
           exists w', iter.nth k w = (Ok (start + k)%Z, w'))
  /\ range [start; stop; 0%Z] = Raise ValueError.
Proof.
  split; [|reflexivity].
  assert (Hel : range_elements start stop 1
                = map (fun i => (start + Z.of_nat i)%Z)
                    (seq 0 (Z.to_nat (stop - start)))).
  { unfold range_elements. rewrite range_length_unit.
    apply map_ext. intros i. lia. }
  exists (of_list (range_elements start stop 1)).
  split; [reflexivity|]. rewrite Hel.
  split; [apply of_list_remaining|].
  intros k Hk.
  destruct (nth_returns_index_aux Z
              (of_list (map (fun i => (start + Z.of_nat i)%Z)
                          (seq 0 (Z.to_nat (stop - start)))))
              (map (fun i => (start + Z.of_nat i)%Z)
                 (seq 0 (Z.to_nat (stop - start))))
              k (start + k)%Z (of_list_remaining _ _)) as (w' & H & _).
  - rewrite nth_error_map, nth_error_seq.
    destruct (Nat.ltb_spec (Z.to_nat k) (Z.to_nat (stop - start))); [|lia].
    simpl. f_equal. lia.
  - exists w'. exact H.
Qed.

(** ** [permutations], [combinations], [combinations_with_replacement] *)

Lemma index_product_spec (n r : nat) :
  forall t, In t (index_product n r) ->
  length t = r /\ Forall (fun i => i < n) t.
Proof.
  induction r as [|r IH]; intros t Ht; simpl in Ht.
  - destruct Ht as [<-|[]]. auto.
  - apply in_flat_map in Ht. destruct Ht as (i & Hi & Ht).
    apply in_map_iff in Ht. destruct Ht as (t' & <- & Ht').
    destruct (IH t' Ht') as (L & F). apply in_seq in Hi.
    split; [simpl; lia|]. constructor; [lia | exact F].
Qed.

Lemma select_positions {T : Type} (pool : list T) (idx : list nat) :
  Forall (fun i => i < length pool) idx ->
  Forall2 (fun x i => nth_error pool i = Some x) (select pool idx) idx.
Proof.
  induction 1 as [|i idx Hi _ IH]; [constructor|].
  unfold select. cbn [flat_map]. fold (select pool idx).
  destruct (nth_error pool i) as [x|] eqn:E.
  - constructor; assumption.
  - apply nth_error_None in E. lia.
Qed.

Lemma select_range (n : nat) (idx : list nat) :
  Forall (fun i => i < n) idx -> select (seq 0 n) idx = idx.
Proof.
  induction 1 as [|i idx Hi _ IH]; [reflexivity|].
  unfold select. cbn [flat_map]. fold (select (seq 0 n) idx).
  rewrite nth_error_seq. destruct (Nat.ltb_spec i n); [|lia].
  rewrite IH. reflexivity.
Qed.

Lemma select_all {T : Type} (pool : list T) :
  select pool (seq 0 (length pool)) = pool.
Proof.
  induction pool as [|x pool IH]; [reflexivity|].
  cbn [length]. change (seq 0 (S (length pool)))
    with (0 :: seq 1 (length pool)).
  unfold select. cbn [flat_map nth_error app]. f_equal.
  rewrite <- seq_shift, flat_map_concat_map, map_map,
    <- flat_map_concat_map.
  exact IH.
Qed.

Lemma nodup_length (l : list nat) :
  length (nodup Nat.eq_dec l) <= length l
  /\ (length (nodup Nat.eq_dec l) = length l -> NoDup l).
Proof.
  induction l as [|x l (Hle & Hno)]; simpl.
  - split; [lia | constructor].
  - destruct (in_dec Nat.eq_dec x l) as [Hin|Hnin]; simpl.
    + split; [lia | intros; lia].
    + split; [lia|]. intros H. constructor; [exact Hnin|].
      apply Hno. lia.
Qed.

Lemma filter_nothing {A : Type} (f : A -> bool) (l : list A) :
  (forall x, In x l -> f x = false) -> filter f l = [].
Proof.
  induction l as [|x l IH]; intros H; [reflexivity|].
  simpl. rewrite (H x (or_introl eq_refl)).
  apply IH. intros y Hy. apply H. now right.
Qed.

(** The index tuples behind [permutations]: of length [r], within the
    pool, no index twice. *)
Lemma permutation_indices {T : Type} (pool : list T) (r : nat) (t : list T) :
  In t (itertools_permutations pool r) ->
  exists idx,
    t = select pool idx /\ length idx = r /\ NoDup idx
    /\ Forall (fun i => i < length pool) idx.
Proof.
  unfold itertools_permutations. intros Ht.
  apply in_map_iff in Ht. destruct Ht as (idx & <- & Hidx).
  apply filter_In in Hidx. destruct Hidx as (Hp & Hd).
  destruct (index_product_spec _ _ _ Hp) as (L & F).
  exists idx. repeat split; auto.
  apply Nat.eqb_eq in Hd. apply nodup_length. congruence.
Qed.

Lemma permutations_too_long {T : Type} (pool : list T) (r : nat) :
  length pool < r -> itertools_permutations pool r = [].
Proof.
  intros Hr. unfold itertools_permutations.
  rewrite filter_nothing; [reflexivity|].
  intros idx Hp. destruct (index_product_spec _ _ _ Hp) as (L & F).
  apply Nat.eqb_neq. intros Hd.
  assert (Hno : NoDup idx) by (apply nodup_length; congruence).
  assert (Hincl : incl idx (seq 0 (length pool))).
  { intros i Hi. apply in_seq. rewrite Forall_forall in F.
    specialize (F i Hi). lia. }
  pose proof (NoDup_incl_length Hno Hincl) as Hlen.
  rewrite length_seq in Hlen. lia.
Qed.

Lemma is_sorted_increasing (idx : list nat) :
  is_sorted idx = true -> NoDup idx -> StronglySorted Nat.lt idx.
Proof.
  unfold is_sorted, builtins_sorted, sort_list.
  destruct (list_eq_dec _ _ idx) as [E|]; [|discriminate]. intros _ Hno.
  destruct (sort_list_spec Nat.ltb (fun i => i)
              (fun a b H => proj2 (Nat.ltb_ge b a)
                              (Nat.lt_le_incl _ _ (proj1 (Nat.ltb_lt a b) H)))
              idx [] (Sorted_nil _)) as (Hs & _).
  rewrite E in Hs.
  assert (Hss : StronglySorted (fun a b => (b <? a) = false) idx).
  { apply Sorted_StronglySorted; [|exact Hs].
    intros a b c Hab Hbc. apply Nat.ltb_ge in Hab, Hbc.
    apply Nat.ltb_ge. lia. }
  clear Hs E. induction Hss as [|a l Hl IH Hall]; [constructor|].
  inversion Hno as [|? ? Hnin Hno']. subst.
  constructor; [apply IH; exact Hno'|].
  rewrite Forall_forall in *. intros b Hb.
  specialize (Hall b Hb). apply Nat.ltb_ge in Hall.
  assert (a <> b) by (intros ->; contradiction). unfold Nat.lt. lia.
Qed.

(** X21: The three methods consume the wrapper when they are called, before
    anything is pulled from the wrapper they return, and also when they
    refuse a negative [r] with [ValueError]. *)
Theorem combinatorics_drain_at_call (T : Type) (w : wrapper T) (l : list T)
  (r : Z) (fuel : nat) :
  remaining w l -> length l < fuel ->
  (exists res w',
      iter.permutations fuel (Some r) w = Some (res, w')
      /\ remaining w' []
      /\ ((r < 0)%Z -> res = Raise ValueError))
  /\ (exists res w',
         iter.combinations fuel r w = Some (res, w')
         /\ remaining w' []
         /\ ((r < 0)%Z -> res = Raise ValueError))
  /\ (exists res w',
         iter.combinations_with_replacement fuel r w = Some (res, w')
         /\ remaining w' []
         /\ ((r < 0)%Z -> res = Raise ValueError)).
Proof.
  intros R Hf.
  destruct (collect_remaining _ _ l fuel R Hf) as (w' & H & R').
  unfold iter.permutations, iter.combinations,
    iter.combinations_with_replacement. rewrite H.
  repeat split; eexists _, w'; (split; [reflexivity|]);
    (split; [exact R'|]); intros Hr;
    destruct (Z.ltb_spec r 0); (reflexivity || lia).
Qed.

Lemma combinatorics_drain_at_call_witness :
  (exists res w',
      iter.permutations 3 (Some (-1)%Z) (of_list [1; 2]%Z) = Some (res, w')
      /\ remaining w' []
      /\ ((-1 < 0)%Z -> res = Raise ValueError))
  /\ (exists res w',
         iter.combinations 3 (-1) (of_list [1; 2]%Z) = Some (res, w')
         /\ remaining w' []
         /\ ((-1 < 0)%Z -> res = Raise ValueError))
  /\ (exists res w',
         iter.combinations_with_replacement 3 (-1) (of_list [1; 2]%Z)
         = Some (res, w')
         /\ remaining w' []
         /\ ((-1 < 0)%Z -> res = Raise ValueError)).
Proof.
  apply (combinatorics_drain_at_call Z (of_list [1; 2]%Z) [1; 2]%Z (-1) 3).
  - apply of_list_remaining.
  - simpl. lia.
Defined.

(** X22: With [r] larger than the number of remaining elements, [permutations]
    and [combinations] yield nothing and raise nothing.
    [combinations_with_replacement] is different: on a wrapper that is not
    exhausted it still yields tuples, among them [r] copies of the first
    element. *)
Theorem combinatorics_r_beyond_pool (T : Type) (w : wrapper T) (l : list T)
  (r : Z) (fuel : nat) :
  remaining w l -> length l < fuel -> (Z.of_nat (length l) < r)%Z ->
  (exists w', iter.permutations fuel (Some r) w = Some (Ok (of_list []), w'))
  /\ (exists w', iter.combinations fuel r w = Some (Ok (of_list []), w'))
  /\ (forall x l', l = x :: l' ->
        exists w' tuples,
          iter.combinations_with_replacement fuel r w
          = Some (Ok (of_list tuples), w')
          /\ In (repeat x (Z.to_nat r)) tuples).
Proof.
  intros R Hf Hr.
  destruct (collect_remaining _ _ l fuel R Hf) as (w' & H & R').
  unfold iter.permutations, iter.combinations,
    iter.combinations_with_replacement. rewrite H.
  destruct (Z.ltb_spec r 0); [lia|].
  split; [|split].
  - exists w'. rewrite permutations_too_long by lia. reflexivity.
  - exists w'. unfold itertools_combinations.
    rewrite permutations_too_long by (rewrite length_seq; lia).
    reflexivity.
  - intros x l' ->. eexists w', _. split; [reflexivity|].
    unfold itertools_combinations_with_replacement.
    apply in_map_iff. exists (repeat 0 (Z.to_nat r)). split.
    + generalize (Z.to_nat r) as k. intros k.
      induction k as [|k IH]; [reflexivity|].
      unfold select in *. cbn [repeat flat_map nth_error app].
      rewrite IH. reflexivity.
    + apply filter_In. split.
      * generalize (Z.to_nat r) as k. intros k.
        induction k as [|k IH]; [now left|].
        cbn [index_product repeat]. apply in_flat_map.
        exists 0. split; [apply in_seq; simpl; lia|].
        apply in_map. exact IH.
      * unfold is_sorted, builtins_sorted, sort_list.
        assert (Hfold : forall k acc,
                  fold_left
                    (fun acc x => insert_sorted Nat.ltb (fun i => i) x acc)
                    (repeat 0 k) (repeat 0 acc)
                  = repeat 0 (acc + k)).
        { induction k as [|k IHk]; intros acc.
          - now rewrite Nat.add_0_r.
          - cbn [repeat fold_left].
            assert (Hins : insert_sorted Nat.ltb (fun i => i) 0
                             (repeat 0 acc) = repeat 0 (S acc)).
            { induction acc as [|acc IHa]; [reflexivity|].
              simpl. f_equal. exact IHa. }
            rewrite Hins, IHk. f_equal. lia. }
        change (@nil nat) with (repeat 0 0). rewrite Hfold.
        destruct (list_eq_dec _ _ _) as [|Hne]; [reflexivity|].
        exfalso. apply Hne. reflexivity.
Qed.

Lemma combinatorics_r_beyond_pool_witness :
  (exists w', iter.permutations 3 (Some 3%Z) (of_list [1; 2]%Z)
              = Some (Ok (of_list []), w'))
  /\ (exists w', iter.combinations 3 3 (of_list [1; 2]%Z)
                 = Some (Ok (of_list []), w'))
  /\ (forall x l', [1; 2]%Z = x :: l' ->
        exists w' tuples,
          iter.combinations_with_replacement 3 3 (of_list [1; 2]%Z)
          = Some (Ok (of_list tuples), w')
          /\ In (repeat x (Z.to_nat 3)) tuples).
Proof.
  apply (combinatorics_r_beyond_pool Z (of_list [1; 2]%Z) [1; 2]%Z 3 3).
  - apply of_list_remaining.
  - simpl. lia.
  - simpl. lia.
Defined.

(** X23: Every tuple [permutations()] yields, with no [r] given, is a
    rearrangement of all the remaining elements; with [r] given, every
    tuple has [r] elements, taken from [r] different positions. *)
Theorem permutations_rearrange (T : Type) (w : wrapper T) (l : list T)
  (r : Z) (fuel : nat) :
  remaining w l -> length l < fuel -> (0 <= r)%Z ->
  (exists w' tuples,
      iter.permutations fuel None w = Some (Ok (of_list tuples), w')
      /\ forall t, In t tuples -> Permutation l t)
  /\ (exists w' tuples,
         iter.permutations fuel (Some r) w = Some (Ok (of_list tuples), w')
         /\ forall t, In t tuples ->
              exists idx,
                length idx = Z.to_nat r /\ NoDup idx
                /\ Forall2 (fun x i => nth_error l i = Some x) t idx).
Proof.
  intros R Hf Hr.
  destruct (collect_remaining _ _ l fuel R Hf) as (w' & H & R').
  unfold iter.permutations. rewrite H.
  destruct (Z.ltb_spec r 0); [lia|].
  split.
  - eexists w', _. split; [reflexivity|]. intros t Ht.
    destruct (permutation_indices _ _ _ Ht) as (idx & -> & L & Hno & F).
    assert (Hperm : Permutation (seq 0 (length l)) idx).
    { apply NoDup_Permutation; [apply seq_NoDup | exact Hno|].
      intros i. split.
      - revert i. apply NoDup_length_incl; [exact Hno| |].
        + rewrite length_seq. lia.
        + intros i Hi. apply in_seq. rewrite Forall_forall in F.
          specialize (F i Hi). lia.
      - intros Hi. apply in_seq. rewrite Forall_forall in F.
        specialize (F i Hi). lia. }
    rewrite <- (select_all l) at 1. unfold select.
    apply Permutation_flat_map. exact Hperm.
  - eexists w', _. split; [reflexivity|]. intros t Ht.
    destruct (permutation_indices _ _ _ Ht) as (idx & -> & L & Hno & F).
    exists idx. repeat split; auto. apply select_positions. exact F.
Qed.

Lemma permutations_rearrange_witness :
  (exists w' tuples,
      iter.permutations 4 None (of_list [1; 2; 3]%Z)
      = Some (Ok (of_list tuples), w')
      /\ forall t, In t tuples -> Permutation [1; 2; 3]%Z t)
  /\ (exists w' tuples,
         iter.permutations 4 (Some 2%Z) (of_list [1; 2; 3]%Z)
         = Some (Ok (of_list tuples), w')
         /\ forall t, In t tuples ->
              exists idx,
                length idx = Z.to_nat 2 /\ NoDup idx
                /\ Forall2 (fun x i => nth_error [1; 2; 3]%Z i = Some x)
                     t idx).
Proof.
  apply (permutations_rearrange Z (of_list [1; 2; 3]%Z) [1; 2; 3]%Z 2 4).
  - apply of_list_remaining.
  - simpl. lia.
  - lia.
Defined.

(** X24: Every tuple [combinations(r)] yields has [r] elements, taken from
    strictly increasing positions of the remaining elements: it keeps their
    order and takes none twice.  The tuples of
    [combinations_with_replacement(r)] have [r] elements from positions
    within the remaining elements. *)
Theorem combinations_keep_order (T : Type) (w : wrapper T) (l : list T)
  (r : Z) (fuel : nat) :
  remaining w l -> length l < fuel -> (0 <= r)%Z ->
  (exists w' tuples,
      iter.combinations fuel r w = Some (Ok (of_list tuples), w')
      /\ forall t, In t tuples ->
           exists idx,
             length idx = Z.to_nat r /\ StronglySorted Nat.lt idx
             /\ Forall2 (fun x i => nth_error l i = Some x) t idx)
  /\ (exists w' tuples,
         iter.combinations_with_replacement fuel r w
         = Some (Ok (of_list tuples), w')
         /\ forall t, In t tuples ->
              exists idx,
                length idx = Z.to_nat r
                /\ Forall2 (fun x i => nth_error l i = Some x) t idx).
Proof.
  intros R Hf Hr.
  destruct (collect_remaining _ _ l fuel R Hf) as (w' & H & R').
  unfold iter.combinations, iter.combinations_with_replacement. rewrite H.
  destruct (Z.ltb_spec r 0); [lia|].
  split.
  - eexists w', _. split; [reflexivity|]. intros t Ht.
    unfold itertools_combinations in Ht.
    apply in_map_iff in Ht. destruct Ht as (idx & <- & Hidx).
    apply filter_In in Hidx. destruct Hidx as (Hp & Hs).
    destruct (permutation_indices _ _ _ Hp) as (idx0 & -> & L & Hno & F).
    rewrite length_seq in F. rewrite (select_range _ _ F) in *.
    exists idx0. repeat split; auto.
    + apply is_sorted_increasing; assumption.
    + apply select_positions. exact F.
  - eexists w', _. split; [reflexivity|]. intros t Ht.
    unfold itertools_combinations_with_replacement in Ht.
    apply in_map_iff in Ht. destruct Ht as (idx & <- & Hidx).
    apply filter_In in Hidx. destruct Hidx as (Hp & _).
    destruct (index_product_spec _ _ _ Hp) as (L & F).
    exists idx. split; [exact L|]. apply select_positions. exact F.
Qed.

Lemma combinations_keep_order_witness :
  (exists w' tuples,
      iter.combinations 4 2 (of_list [1; 2; 3]%Z)
      = Some (Ok (of_list tuples), w')
      /\ forall t, In t tuples ->
           exists idx,
             length idx = Z.to_nat 2 /\ StronglySorted Nat.lt idx
             /\ Forall2 (fun x i => nth_error [1; 2; 3]%Z i = Some x) t idx)
  /\ (exists w' tuples,
         iter.combinations_with_replacement 4 2 (of_list [1; 2; 3]%Z)
         = Some (Ok (of_list tuples), w')
         /\ forall t, In t tuples ->
              exists idx,
                length idx = Z.to_nat 2
                /\ Forall2 (fun x i => nth_error [1; 2; 3]%Z i = Some x)
                     t idx).
Proof.
  apply (combinations_keep_order Z (of_list [1; 2; 3]%Z) [1; 2; 3]%Z 2 4).
  - apply of_list_remaining.
  - simpl. lia.
  - lia.
Defined.

(** The combinatoric methods on 1, 2, 3, evaluated. *)
Example combinatorics_scenario :
  iter.permutations 4 (Some 2%Z) (of_list [1; 2; 3]%Z)
  = Some (Ok (of_list [[1; 2]; [1; 3]; [2; 1]; [2; 3]; [3; 1]; [3; 2]]%Z),
          of_list [])
  /\ iter.combinations 4 2 (of_list [1; 2; 3]%Z)
     = Some (Ok (of_list [[1; 2]; [1; 3]; [2; 3]]%Z), of_list [])
  /\ iter.combinations_with_replacement 3 2 (of_list [1; 2]%Z)
     = Some (Ok (of_list [[1; 1]; [1; 2]; [2; 2]]%Z), of_list []).
Proof. repeat split; reflexivity. Qed.
